(** * The Dapr chat manager of [src/app/chat.py]

    A shallow embedding of [DaprChatManager] (publish / subscribe /
    dispatch over a sidecar, and the persisted conversation history) and
    the properties of it that the specification states.

    Python values are embedded as the inductive [pyval]; methods of the
    manager are computations in a state-and-exception monad [M] whose state
    holds the manager object ([self]), the sidecar, the records written to
    the module logger and the trace of handler invocations.  The two
    standard-library codecs the module calls ([json.dumps]/[json.loads] and
    [datetime.isoformat]/[datetime.fromisoformat]) are an interface,
    [PyLib]; one executable instance of it is given in [Module Py].

    The Dapr client is modelled by what the module expects of it: each
    awaited call either returns or raises, and a call that raises has no
    effect on the sidecar. *)

From stdpp Require Import gmap strings list fin_maps.
From Stdlib Require Import ZArith Ascii NArith.

Local Open Scope string_scope.
Local Open Scope list_scope.
Local Open Scope Z_scope.

(** ** Exceptions and results *)

(** The subclasses of [Exception] that the module can meet.  [DaprError]
    is whatever the sidecar client raises, [UserError] whatever a
    subscriber's handler raises. *)
Inductive exn : Type :=
| KeyError (key : string)
| TypeError
| ValueError
| JSONDecodeError
| DaprError (detail : string)
| UserError (detail : string).

Inductive Result (A : Type) : Type :=
| Ok (a : A)
| Raise (e : exn).
Arguments Ok {A} a.
Arguments Raise {A} e.

#[global] Instance Result_ret : MRet Result := λ A a, Ok a.
#[global] Instance Result_bind : MBind Result := λ A B f r,
  match r with
  | Ok a => f a
  | Raise e => Raise e
  end.

Definition is_Ok {A} (r : Result A) : bool :=
  match r with Ok _ => true | Raise _ => false end.

(** [for x in xs: acc.append(f(x))] where [f] may raise. *)
Fixpoint traverse {A B} (f : A → Result B) (xs : list A) : Result (list B) :=
  match xs with
  | [] => Ok []
  | x :: xs' => y ← f x; ys ← traverse f xs'; Ok (y :: ys)
  end.

(** ** Python values *)

(** What [json.loads] can return and [json.dumps] accepts.  A number is
    kept as its literal: the module never looks inside one.  A dict is the
    list of its items in insertion order. *)
#[local] Unset Elimination Schemes.
Inductive pyval : Type :=
| PyNone
| PyBool (b : bool)
| PyNum (lit : string)
| PyStr (s : string)
| PyList (items : list pyval)
| PyDict (items : list (string * pyval)).
#[local] Set Elimination Schemes.

(** [d.get(k)] on the items of a dict. *)
Fixpoint dict_lookup {V} (k : string) (items : list (string * V)) : option V :=
  match items with
  | [] => None
  | (k', v) :: rest => if String.eqb k k' then Some v else dict_lookup k rest
  end.

(** [d[k] = v]: an existing key keeps its position, a new one goes last. *)
Fixpoint dict_set {V} (k : string) (v : V) (items : list (string * V))
  : list (string * V) :=
  match items with
  | [] => [(k, v)]
  | (k', v') :: rest =>
      if String.eqb k k' then (k, v) :: rest else (k', v') :: dict_set k v rest
  end.

(** [obj[k]] for a string [k]: only a dict can be indexed by a string. *)
Definition subscript (obj : pyval) (k : string) : Result pyval :=
  match obj with
  | PyDict items =>
      match dict_lookup k items with
      | Some v => Ok v
      | None => Raise (KeyError k)
      end
  | _ => Raise TypeError
  end.

(** [name != v] for a [str] [name]: a string differs from every value that
    is not the same string. *)
Definition str_ne (name : string) (v : pyval) : bool :=
  match v with
  | PyStr s => negb (String.eqb name s)
  | _ => true
  end.

(** Truth value of a [str]/[bytes] object. *)
Definition truthy (s : string) : bool :=
  match s with
  | EmptyString => false
  | String _ _ => true
  end.

(** [xs[start:]], with Python's clamping of the start index. *)
Definition slice_from {A} (start : Z) (xs : list A) : list A :=
  let n := Z.of_nat (length xs) in
  let i := if start <? 0 then Z.max 0 (start + n) else Z.min start n in
  drop (Z.to_nat i) xs.

(** The characters of a string, as the one-character strings that
    iterating over a [str] yields. *)
Fixpoint chars (s : string) : list pyval :=
  match s with
  | EmptyString => []
  | String c rest => PyStr (String c EmptyString) :: chars rest
  end.

(** The elements that [for x in obj[start:]] visits: lists and strings can
    be sliced, anything else raises. *)
Definition iter_slice_from (start : Z) (obj : pyval) : Result (list pyval) :=
  match obj with
  | PyList items => Ok (slice_from start items)
  | PyStr s => Ok (slice_from start (chars s))
  | _ => Raise TypeError
  end.

(** *** Values that have a JSON text *)

Definition is_digit (c : ascii) : bool :=
  ((48 <=? N_of_ascii c) && (N_of_ascii c <=? 57))%N.

Definition number_start (c : ascii) : bool :=
  is_digit c || Ascii.eqb c "-".

Definition number_char (c : ascii) : bool :=
  is_digit c || Ascii.eqb c "-" || Ascii.eqb c "+" || Ascii.eqb c "."
  || Ascii.eqb c "e" || Ascii.eqb c "E".

Fixpoint string_forallb (p : ascii → bool) (s : string) : bool :=
  match s with
  | EmptyString => true
  | String c rest => p c && string_forallb p rest
  end.

(** The literal of a number: digits, a sign, a fraction, an exponent. *)
Definition number_literal (lit : string) : bool :=
  match lit with
  | EmptyString => false
  | String c rest => number_start c && string_forallb number_char rest
  end.

Definition has_key {V} (k : string) (items : list (string * V)) : bool :=
  existsb (λ kv, String.eqb k kv.1) items.

(** The keys of a dict are distinct. *)
Fixpoint distinct_keys {V} (items : list (string * V)) : bool :=
  match items with
  | [] => true
  | kv :: rest => negb (has_key kv.1 rest) && distinct_keys rest
  end.

(** The values [json.dumps] writes and [json.loads] gives back. *)
Fixpoint json_ok (v : pyval) : bool :=
  match v with
  | PyNone | PyBool _ | PyStr _ => true
  | PyNum lit => number_literal lit
  | PyList items => forallb json_ok items
  | PyDict items =>
      distinct_keys items && forallb (λ kv, json_ok kv.2) items
  end.

(** The dict that a sequence of [d[k] = v] builds. *)
Definition dict_of_items {V} (items : list (string * V)) : list (string * V) :=
  fold_left (λ d kv, dict_set kv.1 kv.2 d) items [].

(** ** The library interface *)

(** [json] and [datetime], as far as the module uses them.  [None] is a
    raised [JSONDecodeError], respectively [ValueError]. *)
Class PyLib : Type := {
  datetime : Type;
  isoformat : datetime → string;
  fromisoformat : string → option datetime;
  json_dumps : pyval → string;
  json_loads : string → option pyval;
}.

(** What the module relies on: [fromisoformat] reads what [isoformat]
    prints, [json.loads] reads what [json.dumps] writes, and a JSON text is
    not empty. *)
Class PyLibLaws `{PyLib} : Prop := {
  fromisoformat_isoformat :
    ∀ t : datetime, fromisoformat (isoformat t) = Some t;
  json_loads_dumps :
    ∀ v : pyval, json_ok v → json_loads (json_dumps v) = Some v;
  json_dumps_nonempty :
    ∀ v : pyval, json_ok v → json_dumps v ≠ EmptyString;
}.

(** ** The messaging model *)

Section Model.
Context `{PyLib}.
(** Whatever the subscribers' handlers keep of their own. *)
Context {App : Type}.

(** The dataclass.  Its annotations are not checked at run time:
    [handle_incoming_message] and [get_chat_history] store whatever value
    the payload carries under each key, so the four [str] fields hold a
    [pyval]; [well_formed] says that they hold strings. *)
Record ChatMessage : Type := {
  agent_name : pyval;
  role : pyval;
  content : pyval;
  timestamp : datetime;
  message_id : pyval;
}.

Definition is_str (v : pyval) : Prop :=
  match v with PyStr _ => True | _ => False end.

Definition well_formed (m : ChatMessage) : Prop :=
  is_str (agent_name m) ∧ is_str (role m) ∧ is_str (content m)
  ∧ is_str (message_id m).

(** *** The sidecar *)

Record PublishedEvent : Type := {
  ev_pubsub_name : string;
  ev_topic_name : string;
  ev_data : string;
  ev_data_content_type : string;
}.

(** The world outside the manager: the sidecar's state store and the
    events it accepted, and the subscribers' own state.  The sidecar may
    refuse any call: call number [n] (counted by [ticks]) raises [e] when
    [faults n = Some e], and has no effect then. *)
Record World : Type := {
  state_store : gmap (string * string) string;
  published : list PublishedEvent;
  ticks : nat;
  faults : nat → option exn;
  app_state : App;
}.

(** A subscriber's coroutine: it may change the world and may raise.  It
    has no access to the manager that dispatches to it, so the table of
    handlers does not change while a message is routed. *)
Definition Handler : Type := ChatMessage → World → Result unit * World.

(** The client handle that [DaprClient()] returns. *)
Inductive DaprClient : Type := dapr_client.

Record DaprChatManager : Type := {
  app_id : string;
  pubsub_name : string;
  topic_name : string;
  client : option DaprClient;
  message_handlers : list (string * Handler);
}.

(** [__init__] *)
Definition DaprChatManager_init (app_id : string) : DaprChatManager :=
  {| app_id := app_id;
     pubsub_name := "chat-pubsub";
     topic_name := "agent-messages";
     client := None;
     message_handlers := [] |}.

(** *** Instrumentation *)

(** A record of the module logger: the format string as it is in the
    source, and the exception it formats. *)
Inductive LogRecord : Type :=
| Info (text : string)
| Error (text : string) (e : exn).

(** One handler invocation [await handler(message)]. *)
Record Call : Type := {
  callee_name : string;
  callee : Handler;
  argument : ChatMessage;
}.

Record St : Type := {
  self : DaprChatManager;
  world : World;
  logs : list LogRecord;
  calls : list Call;
}.

(** *** The monad of the methods *)

Definition M (A : Type) : Type := St → Result A * St.

#[export] Instance M_ret : MRet M := λ A a st, (Ok a, st).
#[export] Instance M_bind : MBind M := λ A B f m st,
  match m st with
  | (Ok a, st') => f a st'
  | (Raise e, st') => (Raise e, st')
  end.

Definition raise {A} (e : exn) : M A := λ st, (Raise e, st).

Definition lift {A} (r : Result A) : M A := λ st, (r, st).

(** [try: body except Exception as e: handler]: what [body] did to the
    state before raising stays done. *)
Definition try_except {A} (body : M A) (handler : exn → M A) : M A :=
  λ st,
    match body st with
    | (Ok a, st') => (Ok a, st')
    | (Raise e, st') => handler e st'
    end.

Definition get_self : M DaprChatManager := λ st, (Ok (self st), st).

Definition set_client (c : option DaprClient) : M unit := λ st,
  (Ok tt,
   {| self := {| app_id := app_id (self st);
                 pubsub_name := pubsub_name (self st);
                 topic_name := topic_name (self st);
                 client := c;
                 message_handlers := message_handlers (self st) |};
      world := world st; logs := logs st; calls := calls st |}).

Definition set_message_handlers (hs : list (string * Handler)) : M unit :=
  λ st,
  (Ok tt,
   {| self := {| app_id := app_id (self st);
                 pubsub_name := pubsub_name (self st);
                 topic_name := topic_name (self st);
                 client := client (self st);
                 message_handlers := hs |};
      world := world st; logs := logs st; calls := calls st |}).

Definition set_world (w : World) (st : St) : St :=
  {| self := self st; world := w; logs := logs st; calls := calls st |}.

Definition logger (r : LogRecord) : M unit := λ st,
  (Ok tt,
   {| self := self st; world := world st; logs := logs st ++ [r];
      calls := calls st |}).

(** [await handler(message)], recorded in the trace whether it returns
    or raises. *)
Definition invoke (name : string) (handler : Handler) (message : ChatMessage)
  : M unit := λ st,
  let (r, w) := handler message (world st) in
  (r, {| self := self st; world := w; logs := logs st;
         calls := calls st ++ [{| callee_name := name; callee := handler;
                                  argument := message |}] |}).

(** [for x in xs: body(x)] *)
Fixpoint for_each {A} (xs : list A) (body : A → M unit) : M unit :=
  match xs with
  | [] => mret tt
  | x :: xs' => body x;; for_each xs' body
  end.

(** *** Sidecar calls *)

Definition tick (w : World) : World :=
  {| state_store := state_store w; published := published w;
     ticks := S (ticks w); faults := faults w; app_state := app_state w |}.

(** One call to the sidecar: counted, and refused when the fault
    schedule says so. *)
Definition sidecar_call {A} (effect : World → A * World) : M A := λ st,
  let w := world st in
  match faults w (ticks w) with
  | Some e => (Raise e, set_world (tick w) st)
  | None => let (a, w') := effect (tick w) in (Ok a, set_world w' st)
  end.

(** [DaprClient()] *)
Definition DaprClient_new : M DaprClient :=
  sidecar_call (λ w, (dapr_client, w)).

(** [client.publish_event(pubsub_name=, topic_name=, data=,
    data_content_type=)] *)
Definition publish_event (pubsub topic data content_type : string) : M unit :=
  sidecar_call (λ w,
    (tt, {| state_store := state_store w;
            published := published w ++
              [{| ev_pubsub_name := pubsub; ev_topic_name := topic;
                  ev_data := data; ev_data_content_type := content_type |}];
            ticks := ticks w; faults := faults w; app_state := app_state w |})).

(** [client.get_state(store_name=, key=).data]: empty for a missing key. *)
Definition get_state (store_name key : string) : M string :=
  sidecar_call (λ w, (default "" (state_store w !! (store_name, key)), w)).

(** [client.save_state(store_name=, key=, value=)] *)
Definition save_state (store_name key value : string) : M unit :=
  sidecar_call (λ w,
    (tt, {| state_store := <[(store_name, key) := value]> (state_store w);
            published := published w;
            ticks := ticks w; faults := faults w; app_state := app_state w |})).

(** [client.close()] *)
Definition close : M unit := sidecar_call (λ w, (tt, w)).

(** *** Wire form *)

(** The dict that [publish_message] and [save_chat_history] build from a
    message. *)
Definition message_data (message : ChatMessage) : pyval :=
  PyDict [("agent_name", agent_name message);
          ("role", role message);
          ("content", content message);
          ("timestamp", PyStr (isoformat (timestamp message)));
          ("message_id", message_id message)].

(** [json.loads(x)]: [x] has to be text. *)
Definition py_json_loads (x : pyval) : Result pyval :=
  match x with
  | PyStr s =>
      match json_loads s with
      | Some v => Ok v
      | None => Raise JSONDecodeError
      end
  | _ => Raise TypeError
  end.

(** [datetime.fromisoformat(x)]: [x] has to be a [str]. *)
Definition py_fromisoformat (x : pyval) : Result datetime :=
  match x with
  | PyStr s =>
      match fromisoformat s with
      | Some t => Ok t
      | None => Raise ValueError
      end
  | _ => Raise TypeError
  end.

(** The constructor call [ChatMessage(agent_name=data['agent_name'], ...)]
    of [handle_incoming_message] and [get_chat_history]; the arguments
    are evaluated in the order written. *)
Definition ChatMessage_of (data : pyval) : Result ChatMessage :=
  a ← subscript data "agent_name";
  r ← subscript data "role";
  c ← subscript data "content";
  ts ← subscript data "timestamp";
  t ← py_fromisoformat ts;
  i ← subscript data "message_id";
  Ok {| agent_name := a; role := r; content := c; timestamp := t;
        message_id := i |}.

(** *** The methods of [DaprChatManager] *)

Definition initialize : M unit :=
  try_except
    (c ← DaprClient_new;
     set_client (Some c);;
     logger (Info "Dapr client initialized successfully"))
    (λ e,
     logger (Error "Failed to initialize Dapr client: {e}" e);;
     raise e).

(** [if not self.client: await self.initialize()] *)
Definition ensure_client : M unit :=
  this ← get_self;
  match client this with
  | None => initialize
  | Some _ => mret tt
  end.

Definition publish_message (message : ChatMessage) : M unit :=
  ensure_client;;
  try_except
    (this ← get_self;
     publish_event (pubsub_name this) (topic_name this)
       (json_dumps (message_data message)) "application/json";;
     logger (Info
       "Message published from {message.agent_name}: {message.message_id}"))
    (λ e,
     logger (Error "Failed to publish message: {e}" e);;
     raise e).

Definition subscribe_to_messages (agent_name : string) (handler_func : Handler)
  : M unit :=
  this ← get_self;
  set_message_handlers (dict_set agent_name handler_func (message_handlers this));;
  logger (Info "Subscribed {agent_name} to messages").

(** The routing loop of [handle_incoming_message]. *)
Definition route (handlers : list (string * Handler)) (message : ChatMessage)
  : M unit :=
  for_each handlers (λ item,
    if str_ne item.1 (agent_name message)
    then invoke item.1 item.2 message
    else mret tt).

(** [json.loads(event_data.get('data', '{}'))] *)
Definition event_payload (event_data : gmap string pyval) : Result pyval :=
  py_json_loads (default (PyStr "{}") (event_data !! "data")).

(** The message that [handle_incoming_message] builds from an event. *)
Definition decode_event (event_data : gmap string pyval) : Result ChatMessage :=
  data ← event_payload event_data;
  ChatMessage_of data.

Definition handle_incoming_message (event_data : gmap string pyval) : M unit :=
  try_except
    (message ← lift (decode_event event_data);
     this ← get_self;
     route (message_handlers this) message)
    (λ e, logger (Error "Failed to handle incoming message: {e}" e)).

(** The body of the [try] in [get_chat_history]: [Some messages] is the
    [return messages] inside the [if], [None] is falling out of it. *)
Definition read_chat_history (limit : Z) : M (option (list ChatMessage)) :=
  data ← get_state "chat-state" "chat-history";
  if truthy data then
    history_data ← lift (py_json_loads (PyStr data));
    window ← lift (iter_slice_from (- limit) history_data);
    messages ← lift (traverse ChatMessage_of window);
    mret (Some messages)
  else mret None.

Definition get_chat_history (limit : Z) : M (list ChatMessage) :=
  ensure_client;;
  returned ← try_except (read_chat_history limit)
    (λ e,
     logger (Error "Failed to get chat history: {e}" e);;
     mret None);
  match returned with
  | Some messages => mret messages
  | None => mret []
  end.

Definition save_chat_history (messages : list ChatMessage) : M unit :=
  ensure_client;;
  try_except
    (let history_data := PyList (message_data <$> messages) in
     save_state "chat-state" "chat-history" (json_dumps history_data);;
     logger (Info "Saved {len(messages)} messages to chat history"))
    (λ e, logger (Error "Failed to save chat history: {e}" e)).

Definition cleanup : M unit :=
  this ← get_self;
  match client this with
  | Some _ => close;; logger (Info "Dapr client closed")
  | None => mret tt
  end.

(** *** Module-level functions *)

(** Runs [body] on a manager of its own, as a function that builds a
    local [DaprChatManager] does; the caller's [self] is not touched. *)
Definition with_manager {A} (mgr : DaprChatManager) (body : M A) : M A :=
  λ st,
    let (r, st') := body {| self := mgr; world := world st;
                            logs := logs st; calls := calls st |} in
    (r, {| self := self st; world := world st'; logs := logs st';
           calls := calls st' |}).

(** The subscription entry point: a fresh manager for every event. *)
Definition message_handler (event_data : gmap string pyval) : M unit :=
  with_manager (DaprChatManager_init "multi-agent-chat")
    (handle_incoming_message event_data).

(** *** Vocabulary of the statements *)

(** The registered pairs a message is routed to: those of the other
    agents, in registration order. *)
Definition eligible (handlers : list (string * Handler)) (message : ChatMessage)
  : list (string * Handler) :=
  List.filter (λ item, str_ne item.1 (agent_name message)) handlers.

Definition call_of (message : ChatMessage) (item : string * Handler) : Call :=
  {| callee_name := item.1; callee := item.2; argument := message |}.

(** The world after each of [handlers], run in turn on [message], has
    returned; [None] when one of them raises. *)
Fixpoint run_all (handlers : list (string * Handler)) (message : ChatMessage)
  (w : World) : option World :=
  match handlers with
  | [] => Some w
  | item :: rest =>
      match item.2 message w with
      | (Ok _, w') => run_all rest message w'
      | (Raise _, _) => None
      end
  end.

(** The key of the state store holds the log [messages]. *)
Definition persisted (w : World) (messages : list ChatMessage) : Prop :=
  state_store w !! ("chat-state", "chat-history")
  = Some (json_dumps (PyList (message_data <$> messages))).

(** No call to the sidecar is refused from now on. *)
Definition healthy (w : World) : Prop :=
  ∀ n : nat, (ticks w ≤ n)%nat → faults w n = None.

Definition required_fields : list string :=
  ["agent_name"; "role"; "content"; "timestamp"; "message_id"].

(** A payload that lacks one of the fields of a message. *)
Definition missing_field (payload : pyval) : Prop :=
  ∃ field : string,
    field ∈ required_fields ∧ is_Ok (subscript payload field) = false.

(** A payload whose timestamp [datetime.fromisoformat] rejects. *)
Definition unparsable_timestamp (payload : pyval) : Prop :=
  ∃ ts : pyval,
    subscript payload "timestamp" = Ok ts
    ∧ is_Ok (py_fromisoformat ts) = false.

(** The state after the sidecar refused one call with [e] and the method
    logged it under [text]: the call is counted, nothing else changed. *)
Definition after_refusal (text : string) (e : exn) (st : St) : St :=
  {| self := self st; world := tick (world st);
     logs := logs st ++ [Error text e]; calls := calls st |}.

(** The state after [initialize] obtained the client [c]. *)
Definition connected (c : DaprClient) (st : St) : St :=
  {| self := {| app_id := app_id (self st);
                pubsub_name := pubsub_name (self st);
                topic_name := topic_name (self st);
                client := Some c;
                message_handlers := message_handlers (self st) |};
     world := tick (world st);
     logs := logs st ++ [Info "Dapr client initialized successfully"];
     calls := calls st |}.

(** The state after the sidecar accepted the write of [messages]. *)
Definition saved (messages : list ChatMessage) (st : St) : St :=
  {| self := self st;
     world :=
       {| state_store :=
            <[("chat-state", "chat-history") :=
                json_dumps (PyList (message_data <$> messages))]>
              (state_store (world st));
          published := published (world st);
          ticks := S (ticks (world st));
          faults := faults (world st);
          app_state := app_state (world st) |};
     logs := logs st ++ [Info "Saved {len(messages)} messages to chat history"];
     calls := calls st |}.

(** The state after [handle_incoming_message] dropped an event. *)
Definition dropped (e : exn) (st : St) : St :=
  {| self := self st; world := world st;
     logs := logs st ++ [Error "Failed to handle incoming message: {e}" e];
     calls := calls st |}.

End Model.

(** ** Callers of the manager *)

Section Callers.
Context `{PyLib} {App : Type}.

(** [create_chat_manager]: a manager of its own, initialized and handed to
    the caller. *)
Definition create_chat_manager : M (App := App) DaprChatManager :=
  with_manager (DaprChatManager_init "multi-agent-chat")
    (initialize;; get_self).

(** [send_agent_message]; [now] and [uuid] are what [datetime.now()] and
    [str(uuid.uuid4())] return in this call.  The manager is local to the
    call: it is created, used to publish, cleaned up and dropped. *)
Definition send_agent_message (agent_name role content : string)
    (now : datetime) (uuid : string) : M (App := App) string :=
  let message :=
    {| agent_name := PyStr agent_name; role := PyStr role;
       content := PyStr content; timestamp := now;
       message_id := PyStr uuid |} in
  manager ← create_chat_manager;
  with_manager manager (publish_message message;; cleanup);;
  mret uuid.

(** One call of a method of the manager, by a caller that holds it. *)
Inductive MethodCall : Type :=
| CallInitialize
| CallPublish (message : ChatMessage)
| CallSubscribe (agent_name : string) (handler_func : Handler (App := App))
| CallHandle (event_data : gmap string pyval)
| CallHistory (limit : Z)
| CallSave (messages : list ChatMessage)
| CallCleanup.

Definition perform (c : MethodCall) : M (App := App) unit :=
  match c with
  | CallInitialize => initialize
  | CallPublish message => publish_message message
  | CallSubscribe agent_name handler_func =>
      subscribe_to_messages agent_name handler_func
  | CallHandle event_data => handle_incoming_message event_data
  | CallHistory limit => get_chat_history limit;; mret tt
  | CallSave messages => save_chat_history messages
  | CallCleanup => cleanup
  end.

(** The state after a caller made the calls [cs] one after the other,
    going on after a call that raised. *)
Fixpoint session (cs : list MethodCall) (st : St) : St :=
  match cs with
  | [] => st
  | c :: cs' => session cs' (perform c st).2
  end.

(** The calls that can reach a subscriber's handler. *)
Definition dispatches (c : MethodCall) : bool :=
  match c with CallHandle _ => true | _ => false end.

(** What the [try] of [get_chat_history] makes of the stored text. *)
Definition history_of (limit : Z) (data : string) : Result (list ChatMessage) :=
  history_data ← py_json_loads (PyStr data);
  window ← iter_slice_from (- limit) history_data;
  traverse ChatMessage_of window.

(** The text under the key of the log; empty when there is none. *)
Definition stored_history (w : World (App := App)) : string :=
  default "" (state_store w !! ("chat-state", "chat-history")).

(** The state after the sidecar accepted one call that changes nothing. *)
Definition after_call (st : St (App := App)) : St :=
  set_world (tick (world st)) st.

(** What holds between the state of a manager and a later state of it:
    its names are the same, a client it had it still has, a registered
    name is still registered and the names are still distinct, and the
    log and the trace of invocations were only added to. *)
Definition grows (st st' : St (App := App)) : Prop :=
  app_id (self st') = app_id (self st)
  ∧ pubsub_name (self st') = pubsub_name (self st)
  ∧ topic_name (self st') = topic_name (self st)
  ∧ (is_Some (client (self st)) → is_Some (client (self st')))
  ∧ (∀ name, has_key name (message_handlers (self st)) = true →
             has_key name (message_handlers (self st')) = true)
  ∧ (NoDup (message_handlers (self st)).*1 →
     NoDup (message_handlers (self st')).*1)
  ∧ logs st `prefix_of` logs st'
  ∧ calls st `prefix_of` calls st'.
(** The event that [publish_message] hands to the sidecar. *)
Definition event_published (this : DaprChatManager (App := App))
    (message : ChatMessage) : PublishedEvent :=
  {| ev_pubsub_name := pubsub_name this;
     ev_topic_name := topic_name this;
     ev_data := json_dumps (message_data message);
     ev_data_content_type := "application/json" |}.

(** The event as the sidecar delivers it to a subscriber. *)
Definition delivery (ev : PublishedEvent) : gmap string pyval :=
  {[ "data" := PyStr (ev_data ev) ]}.

End Callers.

(** ** An executable instance of the library interface *)

(** JSON text in the layout [json.dumps] emits by default (items separated
    by [", "], keys by [": "], non-printable characters escaped as
    [\u00XX]), a reader for it, and naive timestamps in the two forms
    [datetime.isoformat] prints.  This instance runs the model on concrete
    inputs; the theorems hold for every [PyLib] that satisfies
    [PyLibLaws]. *)
Module Py.
Local Open Scope N_scope.

(** *** Naive timestamps *)

Record fields : Type := {
  year : N; month : N; day : N;
  hour : N; minute : N; second : N; microsecond : N;
}.

Definition is_leap (y : N) : bool :=
  ((y mod 4 =? 0) && negb (y mod 100 =? 0)) || (y mod 400 =? 0).

Definition days_in_month (y m : N) : N :=
  if m =? 2 then (if is_leap y then 29 else 28)
  else if (m =? 4) || (m =? 6) || (m =? 9) || (m =? 11) then 30
  else 31.

Definition valid (t : fields) : bool :=
  (1 <=? year t) && (year t <=? 9999)
  && (1 <=? month t) && (month t <=? 12)
  && (1 <=? day t) && (day t <=? days_in_month (year t) (month t))
  && (hour t <? 24) && (minute t <? 60) && (second t <? 60)
  && (microsecond t <? 1000000).

(** A [datetime] object: its constructor accepts valid fields only. *)
Definition naive_datetime : Type := { t : fields | valid t }.

Definition digit_char (n : N) : ascii := ascii_of_N (48 + n mod 10).

Definition digit_value (c : ascii) : option N :=
  let n := N_of_ascii c in
  if (48 <=? n) && (n <=? 57) then Some (n - 48) else None.

(** [n] in [width] decimal digits, zero padded, in front of [tail]. *)
Fixpoint put_digits (width : nat) (n : N) (tail : string) : string :=
  match width with
  | O => tail
  | S w => put_digits w (n / 10) (String (digit_char n) tail)
  end.

Fixpoint read_digits (width : nat) (acc : N) (s : string)
  : option (N * string) :=
  match width with
  | O => Some (acc, s)
  | S w =>
      match s with
      | String c rest =>
          match digit_value c with
          | Some d => read_digits w (acc * 10 + d) rest
          | None => None
          end
      | EmptyString => None
      end
  end.

Definition expect (c : ascii) (s : string) : option string :=
  match s with
  | String c' rest => if Ascii.eqb c c' then Some rest else None
  | EmptyString => None
  end.

(** [YYYY-MM-DDTHH:MM:SS], followed by [.ffffff] when the microsecond
    is not zero. *)
Definition put_isoformat (t : fields) : string :=
  put_digits 4 (year t) (String "-"
  (put_digits 2 (month t) (String "-"
  (put_digits 2 (day t) (String "T"
  (put_digits 2 (hour t) (String ":"
  (put_digits 2 (minute t) (String ":"
  (put_digits 2 (second t)
    (if microsecond t =? 0 then EmptyString
     else String "." (put_digits 6 (microsecond t) EmptyString)))))))))))).

Definition read_fraction (s : string) : option N :=
  match s with
  | EmptyString => Some 0
  | String c rest =>
      if Ascii.eqb c "." then
        match read_digits 6 0 rest with
        | Some (us, EmptyString) => Some us
        | _ => None
        end
      else None
  end.

Definition read_isoformat (s : string) : option fields :=
  '(y, s) ← read_digits 4 0 s;
  s ← expect "-" s;
  '(mo, s) ← read_digits 2 0 s;
  s ← expect "-" s;
  '(d, s) ← read_digits 2 0 s;
  s ← expect "T" s;
  '(h, s) ← read_digits 2 0 s;
  s ← expect ":" s;
  '(mi, s) ← read_digits 2 0 s;
  s ← expect ":" s;
  '(se, s) ← read_digits 2 0 s;
  us ← read_fraction s;
  Some {| year := y; month := mo; day := d; hour := h; minute := mi;
          second := se; microsecond := us |}.

Definition isoformat (t : naive_datetime) : string := put_isoformat (`t).

Definition fromisoformat (s : string) : option naive_datetime :=
  t ← read_isoformat s;
  match decide (valid t) with
  | left ok => Some (t ↾ ok)
  | right _ => None
  end.

(** [datetime(y, mo, d, h, mi, s, us)], or [None] for the [ValueError]. *)
Definition make_datetime (y mo d h mi s us : N) : option naive_datetime :=
  let t := {| year := y; month := mo; day := d; hour := h; minute := mi;
              second := s; microsecond := us |} in
  match decide (valid t) with
  | left ok => Some (t ↾ ok)
  | right _ => None
  end.

(** *** JSON text *)

Definition dquote : ascii := "034".
Definition backslash : ascii := "092".

Definition hex_char (n : N) : ascii :=
  if n <? 10 then ascii_of_N (48 + n) else ascii_of_N (87 + n).

Definition hex_value (c : ascii) : option N :=
  let n := N_of_ascii c in
  if (48 <=? n) && (n <=? 57) then Some (n - 48)
  else if (97 <=? n) && (n <=? 102) then Some (n - 87)
  else if (65 <=? n) && (n <=? 70) then Some (n - 55)
  else None.

(** Control characters and everything beyond ASCII are written as an
    escape. *)
Definition needs_escape (c : ascii) : bool :=
  (N_of_ascii c <? 32) || (126 <? N_of_ascii c).

Definition put_char (c : ascii) (tail : string) : string :=
  if Ascii.eqb c dquote then String backslash (String dquote tail)
  else if Ascii.eqb c backslash then String backslash (String backslash tail)
  else if needs_escape c then
    String backslash (String "u" (String "0" (String "0"
      (String (hex_char (N_of_ascii c / 16))
        (String (hex_char (N_of_ascii c mod 16)) tail)))))
  else String c tail.

Fixpoint put_chars (s : string) (tail : string) : string :=
  match s with
  | EmptyString => tail
  | String c rest => put_char c (put_chars rest tail)
  end.

Definition put_string (s : string) (tail : string) : string :=
  String dquote (put_chars s (String dquote tail)).

Section PutItems.
Variable put : pyval → string → string.

(** What follows an element of a list: the closing bracket, or a
    separator and the next element. *)
Fixpoint put_more (xs : list pyval) (tail : string) : string :=
  match xs with
  | [] => String "]" tail
  | x :: xs' => String "," (String " " (put x (put_more xs' tail)))
  end.

Fixpoint put_more_members (kvs : list (string * pyval)) (tail : string)
  : string :=
  match kvs with
  | [] => String "}" tail
  | kv :: kvs' =>
      String "," (String " "
        (put_string kv.1 (String ":" (String " "
           (put kv.2 (put_more_members kvs' tail))))))
  end.
End PutItems.

(** [json.dumps(v)], in front of [tail]. *)
Fixpoint put (v : pyval) (tail : string) : string :=
  match v with
  | PyNone => "null" +:+ tail
  | PyBool true => "true" +:+ tail
  | PyBool false => "false" +:+ tail
  | PyNum lit => lit +:+ tail
  | PyStr s => put_string s tail
  | PyList [] => String "[" (String "]" tail)
  | PyList (x :: xs) => String "[" (put x (put_more put xs tail))
  | PyDict [] => String "{" (String "}" tail)
  | PyDict (kv :: kvs) =>
      String "{" (put_string kv.1 (String ":" (String " "
        (put kv.2 (put_more_members put kvs tail)))))
  end.

Definition json_dumps (v : pyval) : string := put v EmptyString.

Definition is_space (c : ascii) : bool :=
  Ascii.eqb c " " || Ascii.eqb c "009" || Ascii.eqb c "010"
  || Ascii.eqb c "013".

Fixpoint skip_ws (s : string) : string :=
  match s with
  | String c rest => if is_space c then skip_ws rest else s
  | EmptyString => s
  end.

(** The longest prefix made of the characters of a number. *)
Fixpoint take_number (s : string) : string * string :=
  match s with
  | String c rest =>
      if number_char c then
        let (lit, r) := take_number rest in (String c lit, r)
      else (EmptyString, s)
  | EmptyString => (EmptyString, s)
  end.

Fixpoint strip_prefix (p s : string) : option string :=
  match p, s with
  | EmptyString, _ => Some s
  | String a p', String b s' =>
      if Ascii.eqb a b then strip_prefix p' s' else None
  | String _ _, EmptyString => None
  end.

Definition unescape (e : ascii) : option ascii :=
  if Ascii.eqb e dquote then Some dquote
  else if Ascii.eqb e backslash then Some backslash
  else if Ascii.eqb e "/" then Some "/"%char
  else if Ascii.eqb e "b" then Some "008"%char
  else if Ascii.eqb e "f" then Some "012"%char
  else if Ascii.eqb e "n" then Some "010"%char
  else if Ascii.eqb e "r" then Some "013"%char
  else if Ascii.eqb e "t" then Some "009"%char
  else None.

(** The character of [\uabxy], when it is one of the 256 a [string]
    holds. *)
Definition code_point (a b x y : ascii) : option ascii :=
  a ← hex_value a; b ← hex_value b; x ← hex_value x; y ← hex_value y;
  let n := ((a * 16 + b) * 16 + x) * 16 + y in
  if n <? 256 then Some (ascii_of_N n) else None.

Definition cons_char (c : ascii) (r : option (string * string))
  : option (string * string) :=
  '(s, rest) ← r; Some (String c s, rest).

(** The characters of a string literal up to its closing quote, and what
    follows the quote. *)
Fixpoint read_chars (s : string) : option (string * string) :=
  match s with
  | EmptyString => None
  | String c rest =>
      if Ascii.eqb c dquote then Some (EmptyString, rest)
      else if Ascii.eqb c backslash then
        match rest with
        | String e rest' =>
            if Ascii.eqb e "u" then
              match rest' with
              | String a (String b (String x (String y rest''))) =>
                  match code_point a b x y with
                  | Some ch => cons_char ch (read_chars rest'')
                  | None => None
                  end
              | _ => None
              end
            else
              match unescape e with
              | Some ch => cons_char ch (read_chars rest')
              | None => None
              end
        | EmptyString => None
        end
      else if N_of_ascii c <? 32 then None
      else cons_char c (read_chars rest)
  end.

Definition read_keyword (s : string) : option (pyval * string) :=
  match strip_prefix "null" s with
  | Some r => Some (PyNone, r)
  | None =>
      match strip_prefix "true" s with
      | Some r => Some (PyBool true, r)
      | None =>
          match strip_prefix "false" s with
          | Some r => Some (PyBool false, r)
          | None => None
          end
      end
  end.

(** One value at the head of [s], and the rest of [s]. *)
Fixpoint parse (fuel : nat) (s : string) {struct fuel}
  : option (pyval * string) :=
  match fuel with
  | O => None
  | S fuel' =>
      match s with
      | EmptyString => None
      | String c rest =>
          if Ascii.eqb c dquote then
            '(str, r) ← read_chars rest; Some (PyStr str, r)
          else if Ascii.eqb c "[" then
            match skip_ws rest with
            | String c' r' =>
                if Ascii.eqb c' "]" then Some (PyList [], r')
                else '(vs, r) ← parse_elems fuel' (skip_ws rest);
                     Some (PyList vs, r)
            | EmptyString => None
            end
          else if Ascii.eqb c "{" then
            match skip_ws rest with
            | String c' r' =>
                if Ascii.eqb c' "}" then Some (PyDict [], r')
                else '(kvs, r) ← parse_members fuel' (skip_ws rest);
                     Some (PyDict (dict_of_items kvs), r)
            | EmptyString => None
            end
          else if number_start c then
            let (lit, r) := take_number s in Some (PyNum lit, r)
          else read_keyword s
      end
  end
with parse_elems (fuel : nat) (s : string) {struct fuel}
  : option (list pyval * string) :=
  match fuel with
  | O => None
  | S fuel' =>
      '(v, r) ← parse fuel' s;
      match skip_ws r with
      | String c r' =>
          if Ascii.eqb c "]" then Some ([v], r')
          else if Ascii.eqb c "," then
            '(vs, r'') ← parse_elems fuel' (skip_ws r'); Some (v :: vs, r'')
          else None
      | EmptyString => None
      end
  end
with parse_members (fuel : nat) (s : string) {struct fuel}
  : option (list (string * pyval) * string) :=
  match fuel with
  | O => None
  | S fuel' =>
      match s with
      | String q rest =>
          if Ascii.eqb q dquote then
            '(k, r) ← read_chars rest;
            match skip_ws r with
            | String c r' =>
                if Ascii.eqb c ":" then
                  '(v, r'') ← parse fuel' (skip_ws r');
                  match skip_ws r'' with
                  | String c' r3 =>
                      if Ascii.eqb c' "}" then Some ([(k, v)], r3)
                      else if Ascii.eqb c' "," then
                        '(kvs, r4) ← parse_members fuel' (skip_ws r3);
                        Some ((k, v) :: kvs, r4)
                      else None
                  | EmptyString => None
                  end
                else None
            | EmptyString => None
            end
          else None
      | EmptyString => None
      end
  end.

(** [json.loads(s)]: one value, with nothing but white space around it.
    A dict keeps the last value of a repeated key. *)
Definition json_loads (s : string) : option pyval :=
  match parse (String.length s) (skip_ws s) with
  | Some (v, r) =>
      match skip_ws r with
      | EmptyString => Some v
      | String _ _ => None
      end
  | None => None
  end.

(** *** Reading back what was written *)

(** The characters a value can start with. *)
Definition value_start (c : ascii) : bool :=
  Ascii.eqb c dquote || Ascii.eqb c "[" || Ascii.eqb c "{" || number_start c
  || Ascii.eqb c "n" || Ascii.eqb c "t" || Ascii.eqb c "f".

(** Enough fuel to read a value back. *)
Fixpoint weight (v : pyval) : nat :=
  match v with
  | PyList items => S (foldr (λ x n, S (weight x + n)) 0%nat items)
  | PyDict items => S (foldr (λ kv n, S (weight kv.2 + n)) 0%nat items)
  | _ => 1
  end.

(** What may follow a number: nothing, or a character that is not part of
    one. *)
Definition tail_ok (tail : string) : Prop :=
  match tail with
  | EmptyString => True
  | String c _ => number_char c = false
  end.

(** [parse] reads [v] back from its text, whatever follows it. *)
Definition parses (v : pyval) : Prop :=
  ∀ (fuel : nat) (tail : string),
    (weight v ≤ fuel)%nat → tail_ok tail →
    parse fuel (put v tail) = Some (v, tail).

(** Text written with ['] where JSON has the double quote. *)
Fixpoint quoted (s : string) : string :=
  match s with
  | EmptyString => EmptyString
  | String c rest =>
      String (if Ascii.eqb c "'" then dquote else c) (quoted rest)
  end.

#[export] Instance lib : PyLib :=
  Build_PyLib naive_datetime isoformat fromisoformat json_dumps json_loads.

End Py.

(** ** A scenario *)

(** Three agents and a sidecar, on the executable library: the subscribers
    keep the names of the handlers that ran. *)
Module Demo.
Import Py.

Definition T1 : naive_datetime :=
  {| year := 2024; month := 2; day := 29; hour := 9; minute := 0;
     second := 0; microsecond := 0 |} ↾ I.
Definition T2 : naive_datetime :=
  {| year := 2024; month := 2; day := 29; hour := 9; minute := 0;
     second := 1; microsecond := 250000 |} ↾ I.
Definition T3 : naive_datetime :=
  {| year := 2024; month := 2; day := 29; hour := 9; minute := 0;
     second := 2; microsecond := 0 |} ↾ I.

Definition say (who text id : string) (at_ : naive_datetime) : ChatMessage :=
  {| agent_name := PyStr who; role := PyStr "assistant";
     content := PyStr text; timestamp := at_; message_id := PyStr id |}.

Definition M1 : ChatMessage := say "A" "requirements" "id-1" T1.
Definition M2 : ChatMessage := say "B" "code" "id-2" T2.
Definition M3 : ChatMessage := say "C" "review" "id-3" T3.

(** A handler that notes its tag and returns. *)
Definition noting (tag : string) : Handler (App := list string) :=
  λ _ w,
    (Ok tt, {| state_store := state_store w; published := published w;
               ticks := ticks w; faults := faults w;
               app_state := (app_state w ++ [tag])%list |}).

(** A handler that raises. *)
Definition failing (e : exn) : Handler (App := list string) :=
  λ _ w, (Raise e, w).

(** A sidecar with an empty store that refuses the calls [plan] lists. *)
Definition world_with (plan : nat → option exn) : World (App := list string) :=
  {| state_store := ∅; published := []; ticks := 0; faults := plan;
     app_state := [] |}.

Definition never : nat → option exn := λ _, None.

(** Refuses call number [k] only. *)
Definition only (k : nat) (e : exn) : nat → option exn :=
  λ n, if Nat.eqb n k then Some e else None.

Definition fresh (plan : nat → option exn) : St :=
  {| self := DaprChatManager_init "multi-agent-chat";
     world := world_with plan; logs := []; calls := [] |}.

(** The state a computation leaves behind. *)
Definition after {A} (m : M A) (st : St (App := list string)) : St := (m st).2.

(** The event the sidecar delivers for a published payload. *)
Definition event_of (data : string) : gmap string pyval :=
  {[ "data" := PyStr data ]}.

Definition event_for (message : ChatMessage) : gmap string pyval :=
  event_of (json_dumps (message_data message)).

Definition boom : exn := UserError "boom".
Definition store_down : exn := DaprError "store down".

(** A manager with the agents A, B and C subscribed, in that order. *)
Definition three_subscribers : St :=
  after (subscribe_to_messages "A" (noting "A");;
         subscribe_to_messages "B" (noting "B");;
         subscribe_to_messages "C" (noting "C"))
    (fresh never).

(** A manager where the handler of A raises and B is subscribed after it. *)
Definition failing_first : St :=
  after (subscribe_to_messages "A" (failing boom);;
         subscribe_to_messages "B" (noting "B"))
    (fresh never).

(** An event whose payload has no [message_id]. *)
Definition incomplete_payload : pyval :=
  PyDict [("agent_name", PyStr "A"); ("role", PyStr "assistant");
          ("content", PyStr "hello");
          ("timestamp", PyStr "2024-02-29T09:00:00")].

(** An event whose timestamp is no ISO-8601 text. *)
Definition mistimed_payload : pyval :=
  PyDict [("agent_name", PyStr "A"); ("role", PyStr "assistant");
          ("content", PyStr "hello"); ("timestamp", PyStr "yesterday");
          ("message_id", PyStr "id-9")].

(** A connected manager whose store holds the log M1, M2, M3. *)
Definition saved_three : St :=
  after (save_chat_history [M1; M2; M3]) (fresh never).

(** A manager with the agents A and B subscribed, in that order. *)
Definition two_subscribers : St :=
  after (subscribe_to_messages "A" (noting "A");;
         subscribe_to_messages "B" (noting "B"))
    (fresh never).

(** A connected manager whose store holds the JSON text of [v] under the
    key of the log. *)
Definition holding (v : pyval) : St :=
  {| self := self (after initialize (fresh never));
     world :=
       {| state_store := {[ ("chat-state", "chat-history") := json_dumps v ]};
          published := []; ticks := 0; faults := never; app_state := [] |};
     logs := []; calls := [] |}.

(** The calls of a session that never dispatches. *)
Definition quiet_session : list (MethodCall (App := list string)) :=
  [CallSubscribe "A" (noting "A"); CallPublish M1; CallSave [M1; M2];
   CallHistory 5; CallCleanup; CallInitialize].

(** The world of a quiet sidecar after the handlers [tags] ran. *)
Definition noted (tags : list string) : World (App := list string) :=
  {| state_store := ∅; published := []; ticks := 0; faults := never;
     app_state := tags |}.

End Demo.

(** * Properties *)

Ltac run := unfold mbind, mret, M_bind, M_ret, try_except, raise, lift,
  logger, get_self, set_client, set_message_handlers, set_world; cbn.

(** ** Dispatch *)

Section Dispatch.
Context `{PyLib} {App : Type}.
Implicit Types (m message : ChatMessage) (st : St (App := App)).
Implicit Types (w : World (App := App)).
Implicit Types (hs pre post : list (string * Handler (App := App))).
Implicit Types (item first : string * Handler (App := App)).

Lemma str_ne_spec (name : string) (v : pyval) :
  str_ne name v = true ↔ PyStr name ≠ v.
Proof.
  destruct v as [| | |s| |]; cbn; try (split; [discriminate|done]).
  rewrite negb_true_iff. destruct (String.eqb_spec name s) as [->|Hne].
  - split; [discriminate|done].
  - split; [|done]. intros _ [=]. done.
Qed.

Lemma eligible_cons item hs m :
  eligible (item :: hs) m
  = if str_ne item.1 (agent_name m) then item :: eligible hs m
    else eligible hs m.
Proof. reflexivity. Qed.

Lemma elem_of_eligible item hs m :
  item ∈ eligible hs m ↔ item ∈ hs ∧ PyStr item.1 ≠ agent_name m.
Proof.
  unfold eligible. rewrite !list_elem_of_In, List.filter_In.
  by rewrite str_ne_spec.
Qed.

Lemma eligible_NoDup hs m : NoDup hs.*1 → NoDup (eligible hs m).*1.
Proof.
  induction hs as [|item hs IH]; [done|].
  rewrite fmap_cons, NoDup_cons, eligible_cons. intros [Hnew Hrest].
  destruct (str_ne item.1 (agent_name m)); [|by apply IH].
  rewrite fmap_cons, NoDup_cons. split; [|by apply IH].
  intros (other & Heq & Hin)%list_elem_of_fmap.
  apply elem_of_eligible in Hin as [Hin _].
  apply Hnew, list_elem_of_fmap. by exists other.
Qed.

Lemma callee_names hs m : callee_name <$> (call_of m <$> hs) = hs.*1.
Proof. by rewrite <- list_fmap_compose. Qed.

Lemma route_cons item hs m st :
  route (item :: hs) m st
  = if str_ne item.1 (agent_name m)
    then match invoke item.1 item.2 m st with
         | (Ok _, st') => route hs m st'
         | (Raise e, st') => (Raise e, st')
         end
    else route hs m st.
Proof.
  unfold route. cbn [for_each]. unfold mbind, M_bind.
  destruct (str_ne item.1 (agent_name m)); [|done].
  by destruct (invoke _ _ _ _) as [[[]|e] st'].
Qed.

(** When every eligible handler returns, each of them was invoked, in
    registration order. *)
Lemma route_returns hs m st w' :
  run_all (eligible hs m) m (world st) = Some w' →
  route hs m st
  = (Ok tt, {| self := self st; world := w'; logs := logs st;
               calls := calls st ++ (call_of m <$> eligible hs m) |}).
Proof.
  revert st. induction hs as [|item hs IH]; intros st Hrun.
  - cbn in Hrun. injection Hrun as <-. destruct st. cbn.
    by rewrite app_nil_r.
  - rewrite route_cons. rewrite eligible_cons in *.
    destruct (str_ne item.1 (agent_name m)); [|by apply IH].
    cbn [run_all] in Hrun. unfold invoke.
    destruct (item.2 m (world st)) as [[[]|e] w1]; [|done].
    rewrite IH by done. cbn. by rewrite <- app_assoc.
Qed.

(** The first handler that raises ends the loop. *)
Lemma route_raises pre item post m st w1 w2 e :
  run_all (eligible pre m) m (world st) = Some w1 →
  str_ne item.1 (agent_name m) = true →
  item.2 m w1 = (Raise e, w2) →
  route (pre ++ item :: post) m st
  = (Raise e, {| self := self st; world := w2; logs := logs st;
                 calls := calls st ++ (call_of m <$> eligible pre m)
                            ++ [call_of m item] |}).
Proof.
  revert st. induction pre as [|first pre IH]; intros st Hrun Hne Hraise.
  - cbn in Hrun. injection Hrun as <-. rewrite app_nil_l, route_cons, Hne.
    unfold invoke. by rewrite Hraise.
  - rewrite <- app_comm_cons, route_cons. rewrite eligible_cons in *.
    destruct (str_ne first.1 (agent_name m)); [|by apply IH].
    cbn [run_all] in Hrun. unfold invoke.
    destruct (first.2 m (world st)) as [[[]|e'] w0]; [|done].
    rewrite IH by done. cbn. by rewrite <- app_assoc.
Qed.

(** Whatever the handlers do, the invocations of one routing are the first
    few of the eligible pairs, in order. *)
Lemma route_prefix hs m st :
  ∃ k : nat,
    self (route hs m st).2 = self st
    ∧ logs (route hs m st).2 = logs st
    ∧ calls (route hs m st).2
      = calls st ++ take k (call_of m <$> eligible hs m).
Proof.
  revert st. induction hs as [|item hs IH]; intros st.
  - exists 0%nat. cbn. by rewrite app_nil_r.
  - rewrite route_cons, eligible_cons.
    destruct (str_ne item.1 (agent_name m)); [|by apply IH].
    unfold invoke. destruct (item.2 m (world st)) as [[[]|e] w1].
    + match goal with
      | |- context [route hs m ?s] => destruct (IH s) as (k & Hs & Hl & Hc)
      end.
      exists (S k). rewrite Hs, Hl, Hc. cbn. by rewrite <- app_assoc.
    + exists 1%nat. cbn. by rewrite take_0.
Qed.

Lemma handle_incoming_message_decoded event_data m st :
  decode_event event_data = Ok m →
  handle_incoming_message event_data st
  = match route (message_handlers (self st)) m st with
    | (Ok _, st') => (Ok tt, st')
    | (Raise e, st') => (Ok tt, dropped e st')
    end.
Proof.
  intros Hm. unfold handle_incoming_message. run. rewrite Hm.
  by destruct (route _ _ _) as [[[]|e] st'].
Qed.

Lemma handle_incoming_message_undecoded event_data e st :
  decode_event event_data = Raise e →
  handle_incoming_message event_data st = (Ok tt, dropped e st).
Proof. intros Hm. unfold handle_incoming_message. run. by rewrite Hm. Qed.

(** [handle_incoming_message] catches every exception. *)
Lemma handle_incoming_message_returns event_data st :
  (handle_incoming_message event_data st).1 = Ok tt.
Proof.
  destruct (decode_event event_data) as [m|e] eqn:Hm.
  - rewrite (handle_incoming_message_decoded _ m) by done.
    by destruct (route _ _ _) as [[[]|e] st'].
  - by rewrite (handle_incoming_message_undecoded _ e).
Qed.

(** The subscription entry point builds its own manager, whose table is
    empty: it decodes the event and invokes nothing. *)
Lemma message_handler_invokes_nothing (event_data : gmap string pyval) st :
  (message_handler event_data st).1 = Ok tt
  ∧ calls (message_handler event_data st).2 = calls st
  ∧ self (message_handler event_data st).2 = self st
  ∧ world (message_handler event_data st).2 = world st.
Proof.
  unfold message_handler, with_manager.
  destruct (decode_event event_data) as [m|e] eqn:Hm.
  - by rewrite (handle_incoming_message_decoded _ m).
  - by rewrite (handle_incoming_message_undecoded _ e).
Qed.

(** The table of handlers is a dict: [subscribe_to_messages] keeps its keys
    distinct, and the last registration of a name wins. *)
Lemma dict_set_keys_NoDup {V} (k : string) (v : V) (items : list (string * V)) :
  NoDup items.*1 → NoDup (dict_set k v items).*1.
Proof.
  induction items as [|[k' v'] items IH]; cbn.
  - intros _. apply NoDup_singleton.
  - rewrite NoDup_cons. intros [Hnew Hrest].
    destruct (String.eqb_spec k k') as [->|Hne]; cbn.
    + by apply NoDup_cons.
    + apply NoDup_cons. split; [|by apply IH].
      intros ([k2 v2] & -> & Hin)%list_elem_of_fmap. cbn in *.
      apply Hnew, list_elem_of_fmap.
      clear IH Hnew Hrest. induction items as [|[k3 v3] items IH].
      { cbn in Hin. apply list_elem_of_singleton in Hin. congruence. }
      cbn in Hin. destruct (String.eqb_spec k k3) as [->|Hne3].
      * apply elem_of_cons in Hin as [[= -> ->]|Hin]; [done|].
        exists (k2, v2). split; [done|]. by right.
      * apply elem_of_cons in Hin as [[= -> ->]|Hin].
        { exists (k3, v3). split; [done|]. by left. }
        destruct (IH Hin) as (x & Hx & Hxin). exists x. split; [done|].
        by right.
Qed.

Lemma dict_lookup_dict_set {V} (k : string) (v : V) (items : list (string * V)) :
  dict_lookup k (dict_set k v items) = Some v.
Proof.
  induction items as [|[k' v'] items IH]; cbn.
  - by rewrite String.eqb_refl.
  - destruct (String.eqb_spec k k') as [->|Hne]; cbn.
    + by rewrite String.eqb_refl.
    + by destruct (String.eqb_spec k k').
Qed.

Lemma subscribe_to_messages_table name (handler_func : Handler (App := App)) st :
  NoDup (message_handlers (self st)).*1 →
  let st' := (subscribe_to_messages name handler_func st).2 in
  NoDup (message_handlers (self st')).*1
  ∧ dict_lookup name (message_handlers (self st')) = Some handler_func.
Proof.
  intros Hnd. cbn. split.
  - by apply dict_set_keys_NoDup.
  - apply dict_lookup_dict_set.
Qed.

(** C1 (as amended).  For every decoded inbound message and every table of
    handlers, [handle_incoming_message] invokes only handlers registered
    under a name other than the message's [agent_name], in registration
    order, each at most once and with the decoded message; the sender's own
    handler is never invoked.  When each invoked handler returns, exactly
    the handlers registered under another name are invoked, each once. *)
Theorem dispatch_invokes_the_other_agents :
  ∀ (event_data : gmap string pyval) m st,
    decode_event event_data = Ok m →
    NoDup (message_handlers (self st)).*1 →
    ∃ invoked : list Call,
      (handle_incoming_message event_data st).1 = Ok tt
      ∧ calls (handle_incoming_message event_data st).2 = calls st ++ invoked
      ∧ (∃ k : nat,
           invoked
           = take k (call_of m <$> eligible (message_handlers (self st)) m))
      ∧ NoDup (callee_name <$> invoked)
      ∧ (∀ c : Call, c ∈ invoked →
           argument c = m
           ∧ (callee_name c, callee c) ∈ message_handlers (self st)
           ∧ PyStr (callee_name c) ≠ agent_name m)
      ∧ (∀ w' : World,
           run_all (eligible (message_handlers (self st)) m) m (world st)
           = Some w' →
           invoked = call_of m <$> eligible (message_handlers (self st)) m
           ∧ world (handle_incoming_message event_data st).2 = w'
           ∧ ∀ name h, (name, h) ∈ message_handlers (self st) →
                       PyStr name ≠ agent_name m →
                       call_of m (name, h) ∈ invoked).
Proof.
  intros event_data m st Hm Hnd.
  set (hs := message_handlers (self st)) in *.
  destruct (route_prefix hs m st) as (k & _ & _ & Hcalls).
  exists (take k (call_of m <$> eligible hs m)).
  split; [apply handle_incoming_message_returns|].
  assert (calls (handle_incoming_message event_data st).2
          = calls (route hs m st).2) as Hsame.
  { rewrite (handle_incoming_message_decoded _ m) by done. fold hs.
    by destruct (route hs m st) as [[[]|e] st']. }
  split; [by rewrite Hsame|]. split; [by exists k|]. split; [|split].
  - rewrite fmap_take, callee_names.
    eapply sublist_NoDup; [by apply eligible_NoDup|apply sublist_take].
  - intros c Hc. apply subseteq_take in Hc.
    apply list_elem_of_fmap in Hc as ([name h] & -> & Hin).
    apply elem_of_eligible in Hin as [Hin Hne]. done.
  - intros w' Hrun. rewrite (route_returns _ _ _ _ Hrun) in Hcalls.
    cbn in Hcalls. apply app_inv_head in Hcalls. rewrite <- Hcalls.
    split; [done|]. split.
    + rewrite (handle_incoming_message_decoded _ m) by done. fold hs.
      by rewrite (route_returns _ _ _ _ Hrun).
    + intros name h Hin Hne. apply list_elem_of_fmap.
      exists (name, h). split; [done|]. by apply elem_of_eligible.
Qed.

Lemma ChatMessage_of_Ok (payload : pyval) m :
  ChatMessage_of payload = Ok m →
  Forall (λ field, is_Ok (subscript payload field) = true) required_fields
  ∧ ∃ ts, subscript payload "timestamp" = Ok ts
          ∧ py_fromisoformat ts = Ok (timestamp m).
Proof.
  unfold ChatMessage_of. cbn.
  destruct (subscript payload "agent_name") as [a|] eqn:Ha; [cbn|done].
  destruct (subscript payload "role") as [r|] eqn:Hr; [cbn|done].
  destruct (subscript payload "content") as [c|] eqn:Hc; [cbn|done].
  destruct (subscript payload "timestamp") as [ts|] eqn:Hts; [cbn|done].
  destruct (py_fromisoformat ts) as [t|] eqn:Ht; [cbn|done].
  destruct (subscript payload "message_id") as [i|] eqn:Hi; [cbn|done].
  intros [= <-]. split; [|by exists ts].
  unfold required_fields.
  repeat (apply Forall_cons; split; [by rewrite ?Ha, ?Hr, ?Hc, ?Hts, ?Hi|]).
  apply Forall_nil_2.
Qed.

(** C4.  An inbound event whose payload lacks a field of [ChatMessage], or
    whose timestamp [datetime.fromisoformat] rejects, is dropped:
    [handle_incoming_message] returns normally, no handler is invoked,
    the world is as before, and the failure is logged. *)
Theorem malformed_event_is_dropped :
  ∀ (event_data : gmap string pyval) (payload : pyval) st,
    event_payload event_data = Ok payload →
    missing_field payload ∨ unparsable_timestamp payload →
    ∃ e : exn,
      handle_incoming_message event_data st = (Ok tt, dropped e st)
      ∧ calls (dropped e st) = calls st
      ∧ world (dropped e st) = world st.
Proof.
  intros event_data payload st Hp Hbad.
  destruct (ChatMessage_of payload) as [m|e] eqn:Hm.
  - exfalso. apply ChatMessage_of_Ok in Hm as (Hall & ts & Hts & Ht).
    destruct Hbad as [(field & Hin & Hno) | (ts' & Hts' & Hno)].
    + rewrite Forall_forall in Hall. specialize (Hall field Hin). congruence.
    + rewrite Hts in Hts'. injection Hts' as <-. by rewrite Ht in Hno.
  - exists e. split; [|done]. apply handle_incoming_message_undecoded.
    unfold decode_event. by rewrite Hp.
Qed.

(** C5 (as amended).  When a registered handler raises during
    [handle_incoming_message], the handlers registered after it are not
    invoked for that message; the exception is logged and does not leave
    [handle_incoming_message], which returns normally. *)
Theorem handler_failure_ends_dispatch :
  ∀ (event_data : gmap string pyval) m st pre item post w1 w2 e,
    decode_event event_data = Ok m →
    message_handlers (self st) = pre ++ item :: post →
    NoDup (message_handlers (self st)).*1 →
    run_all (eligible pre m) m (world st) = Some w1 →
    str_ne item.1 (agent_name m) = true →
    item.2 m w1 = (Raise e, w2) →
    let invoked := (call_of m <$> eligible pre m) ++ [call_of m item] in
    handle_incoming_message event_data st
    = (Ok tt, {| self := self st; world := w2;
                 logs := logs st
                   ++ [Error "Failed to handle incoming message: {e}" e];
                 calls := calls st ++ invoked |})
    ∧ ∀ later, later ∈ post → later.1 ∉ callee_name <$> invoked.
Proof.
  intros event_data m st pre item post w1 w2 e Hm Hhs Hnd Hrun Hne Hraise.
  cbn zeta. split.
  - rewrite (handle_incoming_message_decoded _ m) by done.
    rewrite Hhs, (route_raises _ _ _ _ _ w1 w2 e) by done. done.
  - intros later Hlater. rewrite Hhs, fmap_app, NoDup_app in Hnd.
    destruct Hnd as (_ & Hdisj & Hnd). rewrite fmap_cons, NoDup_cons in Hnd.
    destruct Hnd as [Hitem _].
    rewrite fmap_app, callee_names. cbn. rewrite elem_of_app.
    intros [Hin | Hin].
    + apply list_elem_of_fmap in Hin as (x & Hx & Hin).
      apply elem_of_eligible in Hin as [Hin _].
      apply (Hdisj later.1).
      * rewrite Hx. apply list_elem_of_fmap. by exists x.
      * right. apply list_elem_of_fmap. by exists later.
    + apply list_elem_of_singleton in Hin. apply Hitem. rewrite <- Hin.
      apply list_elem_of_fmap. by exists later.
Qed.

End Dispatch.

(** ** The sidecar: connection, publication, persistence *)

Section Sidecar.
Context `{PyLib} {App : Type}.
Implicit Types (m message : ChatMessage) (st : St (App := App)).
Implicit Types (w : World (App := App)).

Lemma sidecar_call_accepted {A} (effect : World → A * World) st :
  faults (world st) (ticks (world st)) = None →
  sidecar_call effect st
  = (Ok (effect (tick (world st))).1,
     set_world (effect (tick (world st))).2 st).
Proof.
  intros Hok. unfold sidecar_call. rewrite Hok.
  by destruct (effect _).
Qed.

Lemma sidecar_call_refused {A} (effect : World → A * World) st e :
  faults (world st) (ticks (world st)) = Some e →
  sidecar_call effect st = (Raise e, set_world (tick (world st)) st).
Proof. intros Hno. unfold sidecar_call. by rewrite Hno. Qed.

Lemma initialize_accepted st :
  faults (world st) (ticks (world st)) = None →
  initialize st = (Ok tt, connected dapr_client st).
Proof.
  intros Hok. unfold initialize, DaprClient_new. run.
  by rewrite sidecar_call_accepted.
Qed.

Lemma initialize_refused st e :
  faults (world st) (ticks (world st)) = Some e →
  initialize st
  = (Raise e, after_refusal "Failed to initialize Dapr client: {e}" e st).
Proof.
  intros Hno. unfold initialize, DaprClient_new. run.
  by rewrite (sidecar_call_refused _ _ e).
Qed.

Lemma ensure_client_present st c :
  client (self st) = Some c → ensure_client st = (Ok tt, st).
Proof. intros Hc. unfold ensure_client. run. by rewrite Hc. Qed.

Lemma ensure_client_absent st :
  client (self st) = None → ensure_client st = initialize st.
Proof. intros Hc. unfold ensure_client. run. by rewrite Hc. Qed.

(** [ensure_client] returns when the client is there or the sidecar
    accepts the connection, and raises what the sidecar raised otherwise. *)
Lemma ensure_client_cases st :
  (∃ c, client (self st) = Some c ∧ ensure_client st = (Ok tt, st))
  ∨ (client (self st) = None
     ∧ faults (world st) (ticks (world st)) = None
     ∧ ensure_client st = (Ok tt, connected dapr_client st))
  ∨ (∃ e, client (self st) = None
          ∧ faults (world st) (ticks (world st)) = Some e
          ∧ ensure_client st
            = (Raise e,
               after_refusal "Failed to initialize Dapr client: {e}" e st)).
Proof.
  destruct (client (self st)) as [c|] eqn:Hc.
  - left. exists c. split; [done|]. by apply (ensure_client_present _ c).
  - right. rewrite ensure_client_absent by done.
    destruct (faults (world st) (ticks (world st))) as [e|] eqn:Hf.
    + right. exists e. by rewrite (initialize_refused _ e).
    + left. by rewrite initialize_accepted.
Qed.

(** After [ensure_client] the store, the events and the fault schedule of
    the sidecar are those of before. *)
Lemma ensure_client_world (r : Result unit) st st1 :
  ensure_client st = (r, st1) →
  state_store (world st1) = state_store (world st)
  ∧ published (world st1) = published (world st)
  ∧ faults (world st1) = faults (world st)
  ∧ (ticks (world st) ≤ ticks (world st1))%nat
  ∧ calls st1 = calls st.
Proof.
  destruct (ensure_client_cases st)
    as [(c & _ & ->) | [(_ & _ & ->) | (e & _ & _ & ->)]];
    intros [= _ <-]; cbn; auto with lia.
Qed.

Lemma healthy_tick w : healthy w → healthy (tick w).
Proof. intros Hw n Hn. cbn in *. apply Hw. lia. Qed.

Lemma healthy_now w : healthy w → faults w (ticks w) = None.
Proof. intros Hw. by apply Hw. Qed.

Lemma ensure_client_healthy st :
  healthy (world st) →
  ∃ st1, ensure_client st = (Ok tt, st1)
         ∧ healthy (world st1)
         ∧ state_store (world st1) = state_store (world st).
Proof.
  intros Hw. destruct (client (self st)) as [c|] eqn:Hc.
  - exists st. by rewrite (ensure_client_present _ c Hc).
  - rewrite ensure_client_absent by done.
    rewrite initialize_accepted by by apply healthy_now.
    eexists. split; [done|]. split; [|done]. by apply healthy_tick.
Qed.

(** *** Saving *)

Lemma save_chat_history_connected (messages : list ChatMessage) st st1 :
  ensure_client st = (Ok tt, st1) →
  save_chat_history messages st
  = match faults (world st1) (ticks (world st1)) with
    | None => (Ok tt, saved messages st1)
    | Some e =>
        (Ok tt, after_refusal "Failed to save chat history: {e}" e st1)
    end.
Proof.
  intros Hc. unfold save_chat_history. run. rewrite Hc. unfold save_state.
  destruct (faults (world st1) (ticks (world st1))) as [e|] eqn:Hf.
  - by rewrite (sidecar_call_refused _ _ e).
  - by rewrite sidecar_call_accepted.
Qed.

Lemma save_chat_history_unconnected (messages : list ChatMessage) st e st1 :
  ensure_client st = (Raise e, st1) →
  save_chat_history messages st = (Raise e, st1).
Proof. intros Hc. unfold save_chat_history. run. by rewrite Hc. Qed.

(** On a sidecar that accepts its calls, [save_chat_history] returns and
    the key holds the sequence it was given. *)
Lemma save_persists (messages : list ChatMessage) st :
  healthy (world st) →
  (save_chat_history messages st).1 = Ok tt
  ∧ persisted (world (save_chat_history messages st).2) messages
  ∧ healthy (world (save_chat_history messages st).2).
Proof.
  intros Hw. destruct (ensure_client_healthy st Hw) as (st1 & Hc & Hw1 & _).
  rewrite (save_chat_history_connected _ _ _ Hc), (healthy_now _ Hw1).
  split; [done|]. split.
  - unfold persisted. cbn. apply lookup_insert_eq.
  - intros n Hn. cbn in *. apply Hw1. lia.
Qed.

(** Whatever happens, [save_chat_history] leaves the store as it was or
    with the key replaced. *)
Lemma save_store (messages : list ChatMessage) st :
  state_store (world (save_chat_history messages st).2)
  = state_store (world st)
  ∨ state_store (world (save_chat_history messages st).2)
    = <[("chat-state", "chat-history") :=
          json_dumps (PyList (message_data <$> messages))]>
        (state_store (world st)).
Proof.
  destruct (ensure_client st) as [[[]|e] st1] eqn:Hc.
  - destruct (ensure_client_world _ _ _ Hc) as (Hs & _).
    rewrite (save_chat_history_connected _ _ _ Hc).
    destruct (faults (world st1) (ticks (world st1))); cbn; rewrite Hs; auto.
  - rewrite (save_chat_history_unconnected _ _ _ _ Hc). left.
    by destruct (ensure_client_world _ _ _ Hc) as (Hs & _).
Qed.

(** C6 (as amended).  When the sidecar refuses the write of
    [save_chat_history], the method does not raise: it logs the exception
    and returns normally, and the store is not written. *)
Theorem save_failure_is_swallowed :
  ∀ (messages : list ChatMessage) st st1 e,
    ensure_client st = (Ok tt, st1) →
    faults (world st1) (ticks (world st1)) = Some e →
    save_chat_history messages st
    = (Ok tt, after_refusal "Failed to save chat history: {e}" e st1)
    ∧ state_store (world (save_chat_history messages st).2)
      = state_store (world st).
Proof.
  intros messages st st1 e Hc Hf.
  rewrite (save_chat_history_connected _ _ _ Hc), Hf. split; [done|].
  cbn. by destruct (ensure_client_world _ _ _ Hc) as (Hs & _).
Qed.

(** *** Loading *)

(** C8.  For every limit, [get_chat_history] returns the empty list, and
    does not raise, when the key holds no log and when the sidecar refuses
    the read. *)
Theorem load_degrades_to_empty :
  ∀ (limit : Z) st st1,
    ensure_client st = (Ok tt, st1) →
    (faults (world st1) (ticks (world st1)) = None →
     state_store (world st) !! ("chat-state", "chat-history") = None →
     get_chat_history limit st = (Ok [], set_world (tick (world st1)) st1))
    ∧ (∀ e, faults (world st1) (ticks (world st1)) = Some e →
         get_chat_history limit st
         = (Ok [], after_refusal "Failed to get chat history: {e}" e st1)).
Proof.
  intros limit st st1 Hc.
  destruct (ensure_client_world _ _ _ Hc) as (Hs & _). split.
  - intros Hf Hno. unfold get_chat_history, read_chat_history. run.
    rewrite Hc. unfold get_state. rewrite sidecar_call_accepted by done.
    cbn. by rewrite Hs, Hno.
  - intros e Hf. unfold get_chat_history, read_chat_history. run.
    rewrite Hc. unfold get_state. by rewrite (sidecar_call_refused _ _ e).
Qed.

(** *** Connecting and publishing *)

Lemma publish_message_connected m st st1 :
  ensure_client st = (Ok tt, st1) →
  publish_message m st
  = match faults (world st1) (ticks (world st1)) with
    | None =>
        (Ok tt,
         {| self := self st1;
            world :=
              {| state_store := state_store (world st1);
                 published := published (world st1) ++
                   [{| ev_pubsub_name := pubsub_name (self st1);
                       ev_topic_name := topic_name (self st1);
                       ev_data := json_dumps (message_data m);
                       ev_data_content_type := "application/json" |}];
                 ticks := S (ticks (world st1));
                 faults := faults (world st1);
                 app_state := app_state (world st1) |};
            logs := logs st1 ++ [Info
              "Message published from {message.agent_name}: {message.message_id}"];
            calls := calls st1 |})
    | Some e =>
        (Raise e, after_refusal "Failed to publish message: {e}" e st1)
    end.
Proof.
  intros Hc. unfold publish_message. run. rewrite Hc. unfold publish_event.
  destruct (faults (world st1) (ticks (world st1))) as [e|] eqn:Hf.
  - by rewrite (sidecar_call_refused _ _ e).
  - by rewrite sidecar_call_accepted.
Qed.

(** C9.  Connection and publish failures reach the caller, after one
    attempt: when the sidecar refuses the connection, [initialize] and a
    [publish_message] that has to connect raise the sidecar's exception;
    when it refuses the publication, [publish_message] raises it.  In each
    case one call to the sidecar was made and nothing was published. *)
Theorem connect_and_publish_failures_propagate :
  ∀ m st e,
    (faults (world st) (ticks (world st)) = Some e →
     initialize st
     = (Raise e, after_refusal "Failed to initialize Dapr client: {e}" e st)
     ∧ (client (self st) = None →
        publish_message m st
        = (Raise e,
           after_refusal "Failed to initialize Dapr client: {e}" e st)))
    ∧ (∀ st1,
         ensure_client st = (Ok tt, st1) →
         faults (world st1) (ticks (world st1)) = Some e →
         publish_message m st
         = (Raise e, after_refusal "Failed to publish message: {e}" e st1)
         ∧ ticks (world (publish_message m st).2) = S (ticks (world st1))
         ∧ published (world (publish_message m st).2) = published (world st)).
Proof.
  intros m st e. split.
  - intros Hf. split; [by apply initialize_refused|].
    intros Hc. unfold publish_message. run.
    by rewrite ensure_client_absent, (initialize_refused _ e).
  - intros st1 Hc Hf.
    rewrite (publish_message_connected _ _ _ Hc), Hf. split; [done|].
    cbn. by destruct (ensure_client_world _ _ _ Hc) as (_ & Hp & _).
Qed.

End Sidecar.

(** ** The wire form and the persisted log *)

Section Wire.
Context `{PyLibLaws} {App : Type}.
Implicit Types (m message : ChatMessage) (st : St (App := App)).

Lemma ChatMessage_of_message_data m : ChatMessage_of (message_data m) = Ok m.
Proof.
  destruct m as [a r c t i].
  unfold ChatMessage_of, message_data. cbn.
  by rewrite fromisoformat_isoformat.
Qed.

Lemma is_str_json_ok (v : pyval) : is_str v → json_ok v.
Proof. by destruct v. Qed.

Lemma message_data_json_ok m : well_formed m → json_ok (message_data m).
Proof.
  intros (Ha & Hr & Hc & Hi).
  unfold message_data. cbn [json_ok].
  apply andb_True. split; [done|].
  cbn. rewrite !andb_True. repeat split; auto using is_str_json_ok.
Qed.

Lemma history_data_json_ok (messages : list ChatMessage) :
  Forall well_formed messages → json_ok (PyList (message_data <$> messages)).
Proof.
  intros Hall. cbn [json_ok]. induction Hall as [|m ms Hm _ IH]; [done|].
  rewrite fmap_cons. cbn [forallb]. apply andb_True. split; [|done].
  by apply message_data_json_ok.
Qed.

Lemma traverse_message_data (messages : list ChatMessage) :
  traverse ChatMessage_of (message_data <$> messages) = Ok messages.
Proof.
  induction messages as [|m ms IH]; [done|].
  rewrite fmap_cons. cbn [traverse].
  rewrite ChatMessage_of_message_data. cbn. by rewrite IH.
Qed.

Lemma truthy_json_dumps (v : pyval) : json_ok v → truthy (json_dumps v) = true.
Proof.
  intros Hv. pose proof (json_dumps_nonempty v Hv).
  by destruct (json_dumps v).
Qed.

(** C7.  The payload that [publish_message] writes for a well-formed
    message is read back by [handle_incoming_message] as the dict of its
    five fields, and decoded to a message equal to the original. *)
Theorem wire_round_trip :
  ∀ m (event_data : gmap string pyval),
    well_formed m →
    event_data !! "data" = Some (PyStr (json_dumps (message_data m))) →
    event_payload event_data = Ok (message_data m)
    ∧ decode_event event_data = Ok m.
Proof.
  intros m event_data Hm Hdata.
  assert (event_payload event_data = Ok (message_data m)) as Hp.
  { unfold event_payload. rewrite Hdata. cbn.
    by rewrite json_loads_dumps by by apply message_data_json_ok. }
  split; [done|].
  unfold decode_event. rewrite Hp. cbn. apply ChatMessage_of_message_data.
Qed.

Lemma slice_from_fmap {A B} (f : A → B) (start : Z) (xs : list A) :
  slice_from start (f <$> xs) = f <$> slice_from start xs.
Proof. unfold slice_from. by rewrite length_fmap, fmap_drop. Qed.

Lemma slice_from_0 {A} (xs : list A) : slice_from 0 xs = xs.
Proof. unfold slice_from. cbn. by rewrite Z.min_l by lia. Qed.

Lemma slice_from_last {A} (limit : Z) (xs : list A) :
  (0 < limit)%Z →
  slice_from (- limit) xs = drop (length xs - Z.to_nat limit) xs.
Proof.
  intros Hpos. unfold slice_from.
  destruct (Z.ltb_spec (- limit) 0); [|lia]. f_equal. lia.
Qed.

(** What [get_chat_history] returns for a log that [save_chat_history]
    wrote: the slice [history_data[-limit:]] of it. *)
Lemma get_chat_history_persisted (limit : Z) (messages : list ChatMessage)
    st st1 :
  Forall well_formed messages →
  ensure_client st = (Ok tt, st1) →
  faults (world st1) (ticks (world st1)) = None →
  persisted (world st1) messages →
  get_chat_history limit st
  = (Ok (slice_from (- limit) messages), set_world (tick (world st1)) st1).
Proof.
  intros Hwf Hc Hf Hp. unfold get_chat_history, read_chat_history. run.
  rewrite Hc. unfold get_state. rewrite sidecar_call_accepted by done.
  cbn. unfold persisted in Hp. rewrite Hp. cbn.
  rewrite truthy_json_dumps by by apply history_data_json_ok.
  rewrite json_loads_dumps by by apply history_data_json_ok.
  cbn. by rewrite slice_from_fmap, traverse_message_data.
Qed.

(** With a limit of at least one, the last [limit] messages of the log
    come back, oldest first. *)
Lemma get_chat_history_positive_limit (limit : Z) (messages : list ChatMessage)
    st st1 :
  (0 < limit)%Z →
  Forall well_formed messages →
  ensure_client st = (Ok tt, st1) →
  faults (world st1) (ticks (world st1)) = None →
  persisted (world st1) messages →
  (get_chat_history limit st).1
  = Ok (drop (length messages - Z.to_nat limit) messages).
Proof.
  intros Hpos Hwf Hc Hf Hp.
  rewrite (get_chat_history_persisted _ messages _ st1) by done.
  cbn. by rewrite slice_from_last.
Qed.

(** C10.  With [limit = 0], [get_chat_history] returns the whole persisted
    log in insertion order: every stored message, and so not the empty
    list when the log is not empty. *)
Theorem load_limit_zero_returns_whole_log :
  ∀ (messages : list ChatMessage) st st1,
    Forall well_formed messages →
    ensure_client st = (Ok tt, st1) →
    faults (world st1) (ticks (world st1)) = None →
    persisted (world st1) messages →
    (get_chat_history 0 st).1 = Ok messages
    ∧ (messages ≠ [] → (get_chat_history 0 st).1 ≠ Ok []).
Proof.
  intros messages st st1 Hwf Hc Hf Hp.
  rewrite (get_chat_history_persisted _ messages _ st1) by done.
  cbn. rewrite slice_from_0. split; [done|]. intros Hne [= Heq]. done.
Qed.

(** C3.  [save_chat_history] replaces the persisted key: after saving
    [first] and then [second], on a sidecar that accepts the calls after
    the first save, the key holds the serialization of [second] alone and
    the store is the store from before both calls with that one key set.
    What is stored is exactly [second]: read back, a well-formed [second]
    comes back whole under every limit that is not smaller than its
    length, and under every limit what comes back is [second] without
    some of its oldest messages, so nothing of [first] is left besides. *)
Theorem save_overwrites :
  ∀ (first second : list ChatMessage) st,
    healthy (world (save_chat_history first st).2) →
    let st2 := (save_chat_history second (save_chat_history first st).2).2 in
    (save_chat_history second (save_chat_history first st).2).1 = Ok tt
    ∧ persisted (world st2) second
    ∧ state_store (world st2)
      = <[("chat-state", "chat-history") :=
            json_dumps (PyList (message_data <$> second))]>
          (state_store (world st))
    ∧ (Forall well_formed second →
       (∀ limit : Z,
          (Z.of_nat (length second) ≤ limit)%Z →
          (get_chat_history limit st2).1 = Ok second)
       ∧ (∀ limit : Z,
            ∃ k : nat, (get_chat_history limit st2).1 = Ok (drop k second))).
Proof.
  intros first second st Hw st2.
  destruct (save_persists second _ Hw) as (Hr & Hp & Hw2).
  split; [done|]. split; [done|]. split.
  - subst st2.
    destruct (ensure_client_healthy _ Hw) as (st1 & Hc & Hw1 & Hs).
    rewrite (save_chat_history_connected _ _ _ Hc), (healthy_now _ Hw1).
    cbn. rewrite Hs.
    destruct (save_store first st) as [-> | ->]; [done|].
    apply insert_insert_eq.
  - intros Hwf.
    destruct (ensure_client_healthy _ Hw2) as (st3 & Hc & Hw3 & Hs).
    assert (∀ limit : Z,
      (get_chat_history limit st2).1 = Ok (slice_from (- limit) second))
      as Hload.
    { intros limit.
      rewrite (get_chat_history_persisted limit second _ st3); try done.
      - by apply healthy_now.
      - unfold persisted. by rewrite Hs. }
    split.
    + intros limit Hl. rewrite Hload. f_equal. unfold slice_from.
      destruct (Z.ltb_spec (- limit) 0).
      * rewrite Z.max_l by lia. done.
      * destruct second; [by rewrite drop_nil|cbn in *; lia].
    + intros limit. rewrite Hload. by eexists.
Qed.

End Wire.

(** * Further properties of the manager *)

(** ** Subscribing and dispatching *)

Section MoreDispatch.
Context `{PyLib} {App : Type}.
Implicit Types (m message : ChatMessage) (st : St (App := App)).
Implicit Types (w : World (App := App)).
Implicit Types (hs pre post : list (string * Handler (App := App))).
Implicit Types (item first : string * Handler (App := App)).

Lemma dict_lookup_dict_set_ne {V} (k k' : string) (v : V)
    (items : list (string * V)) :
  k' ≠ k → dict_lookup k' (dict_set k v items) = dict_lookup k' items.
Proof.
  intros Hne. induction items as [|[k2 v2] items IH]; cbn.
  - by destruct (String.eqb_spec k' k).
  - destruct (String.eqb_spec k k2) as [->|Hk]; cbn.
    + by destruct (String.eqb_spec k' k2).
    + destruct (String.eqb_spec k' k2); [done|]. apply IH.
Qed.

Lemma dict_set_keys {V} (k : string) (v : V) (items : list (string * V)) :
  (dict_set k v items).*1
  = if has_key k items then items.*1 else items.*1 ++ [k].
Proof.
  induction items as [|[k2 v2] items IH]; [done|].
  unfold has_key in *. cbn.
  destruct (String.eqb_spec k k2) as [->|Hk]; cbn; [done|].
  rewrite IH. by destruct (existsb _ items).
Qed.

(** [subscribe_to_messages]: the last registration of a name wins and
    keeps the place of the first one; the other entries stay. *)
Theorem subscribe_replaces_in_place :
  ∀ (name : string) (handler_func : Handler (App := App)) st,
    let st' := (subscribe_to_messages name handler_func st).2 in
    (subscribe_to_messages name handler_func st).1 = Ok tt
    ∧ dict_lookup name (message_handlers (self st')) = Some handler_func
    ∧ (∀ other, other ≠ name →
         dict_lookup other (message_handlers (self st'))
         = dict_lookup other (message_handlers (self st)))
    ∧ (message_handlers (self st')).*1
      = (if has_key name (message_handlers (self st))
         then (message_handlers (self st)).*1
         else (message_handlers (self st)).*1 ++ [name])
    ∧ (NoDup (message_handlers (self st)).*1 →
       NoDup (message_handlers (self st')).*1)
    ∧ world st' = world st ∧ calls st' = calls st
    ∧ client (self st') = client (self st).
Proof.
  intros name handler_func st. cbn. repeat split.
  - apply dict_lookup_dict_set.
  - intros other Hne. by apply dict_lookup_dict_set_ne.
  - apply dict_set_keys.
  - apply dict_set_keys_NoDup.
Qed.

(** [except Exception] in [handle_incoming_message] catches every
    exception that derives from [Exception]: whatever the event, and
    whichever of the registered handlers return and whichever raise such
    an exception (the outcomes a [Handler] has), the call returns
    normally, the manager is as before and the log grows by at most one
    error record.  An exception that derives from [BaseException] only,
    such as [asyncio.CancelledError] or [SystemExit], is not caught by
    that clause; it is none of [exn], and nothing is said of it here. *)
Theorem dispatch_catches_every_Exception :
  ∀ (event_data : gmap string pyval) st,
    (handle_incoming_message event_data st).1 = Ok tt
    ∧ self (handle_incoming_message event_data st).2 = self st
    ∧ (logs (handle_incoming_message event_data st).2 = logs st
       ∨ ∃ e, logs (handle_incoming_message event_data st).2
              = logs st ++ [Error "Failed to handle incoming message: {e}" e]).
Proof.
  intros event_data st.
  destruct (decode_event event_data) as [m|e] eqn:Hm.
  - rewrite (handle_incoming_message_decoded _ m) by done.
    destruct (route_prefix (message_handlers (self st)) m st)
      as (k & Hself & Hlogs & _).
    destruct (route _ _ _) as [[[]|e] st']; cbn in *.
    + rewrite Hself, Hlogs. auto.
    + rewrite Hself, Hlogs. split; [done|]. split; [done|]. right. by exists e.
  - rewrite (handle_incoming_message_undecoded _ e) by done. cbn.
    split; [done|]. split; [done|]. right. by exists e.
Qed.

Lemma eligible_all hs m :
  Forall (λ item, PyStr item.1 ≠ agent_name m) hs → eligible hs m = hs.
Proof.
  induction 1 as [|item hs Hitem _ IH]; [done|].
  rewrite eligible_cons. apply str_ne_spec in Hitem. by rewrite Hitem, IH.
Qed.

(** A message whose [agent_name] is no registered name, and so every
    message whose [agent_name] is not a string, is routed to every
    registered handler. *)
Theorem unregistered_sender_reaches_every_handler :
  ∀ (event_data : gmap string pyval) m st w',
    decode_event event_data = Ok m →
    (¬ is_str (agent_name m)
     ∨ Forall (λ item, PyStr item.1 ≠ agent_name m)
         (message_handlers (self st))) →
    run_all (message_handlers (self st)) m (world st) = Some w' →
    handle_incoming_message event_data st
    = (Ok tt, {| self := self st; world := w'; logs := logs st;
                 calls := calls st
                   ++ (call_of m <$> message_handlers (self st)) |}).
Proof.
  intros event_data m st w' Hm Hsender Hrun.
  assert (eligible (message_handlers (self st)) m = message_handlers (self st))
    as Hall.
  { apply eligible_all. destruct Hsender as [Hno|Hall]; [|done].
    apply Forall_forall. intros item _ Heq. apply Hno. by rewrite <- Heq. }
  rewrite (handle_incoming_message_decoded _ m) by done.
  rewrite (route_returns _ _ _ w') by by rewrite Hall.
  by rewrite Hall.
Qed.

(** An event that carries no JSON object is dropped: data that is no
    text, text that is no JSON, and JSON that is no object each raise
    inside the [try], and no handler is invoked. *)
Theorem event_without_json_object_is_dropped :
  ∀ (event_data : gmap string pyval) st,
    let data := default (PyStr "{}") (event_data !! "data") in
    ((∀ s, data ≠ PyStr s) →
     handle_incoming_message event_data st = (Ok tt, dropped TypeError st))
    ∧ (∀ s, data = PyStr s → json_loads s = None →
       handle_incoming_message event_data st
       = (Ok tt, dropped JSONDecodeError st))
    ∧ (∀ s payload, data = PyStr s → json_loads s = Some payload →
       (∀ items, payload ≠ PyDict items) →
       handle_incoming_message event_data st = (Ok tt, dropped TypeError st)).
Proof.
  intros event_data st data. repeat split.
  - intros Hno. apply handle_incoming_message_undecoded.
    unfold decode_event, event_payload. fold data.
    destruct data; try done. by destruct (Hno s).
  - intros s Hdata Hloads. apply handle_incoming_message_undecoded.
    unfold decode_event, event_payload. fold data. rewrite Hdata. cbn.
    by rewrite Hloads.
  - intros s payload Hdata Hloads Hno. apply handle_incoming_message_undecoded.
    unfold decode_event, event_payload. fold data. rewrite Hdata. cbn.
    rewrite Hloads. cbn. destruct payload; try done. by destruct (Hno items).
Qed.

End MoreDispatch.

(** ** Publishing, saving, loading, closing *)

Section MoreSidecar.
Context `{PyLib} {App : Type}.
Implicit Types (m message : ChatMessage) (st : St (App := App)).
Implicit Types (w : World (App := App)).

Lemma ensure_client_table (r : Result unit) st st1 :
  ensure_client st = (r, st1) →
  message_handlers (self st1) = message_handlers (self st)
  ∧ app_id (self st1) = app_id (self st)
  ∧ pubsub_name (self st1) = pubsub_name (self st)
  ∧ topic_name (self st1) = topic_name (self st).
Proof.
  destruct (ensure_client_cases st)
    as [(c & _ & ->) | [(_ & _ & ->) | (e & _ & _ & ->)]];
    intros [= _ <-]; done.
Qed.

Lemma get_chat_history_connected (limit : Z) st st1 :
  ensure_client st = (Ok tt, st1) →
  get_chat_history limit st
  = match faults (world st1) (ticks (world st1)) with
    | Some e =>
        (Ok [], after_refusal "Failed to get chat history: {e}" e st1)
    | None =>
        if truthy (stored_history (world st1)) then
          match history_of limit (stored_history (world st1)) with
          | Ok messages => (Ok messages, after_call st1)
          | Raise e =>
              (Ok [],
               {| self := self st1; world := tick (world st1);
                  logs := logs st1 ++ [Error "Failed to get chat history: {e}" e];
                  calls := calls st1 |})
          end
        else (Ok [], after_call st1)
    end.
Proof.
  intros Hc. unfold get_chat_history, read_chat_history. run. rewrite Hc.
  unfold get_state.
  destruct (faults (world st1) (ticks (world st1))) as [e|] eqn:Hf.
  - by rewrite (sidecar_call_refused _ _ e).
  - rewrite sidecar_call_accepted by done. cbn.
    unfold stored_history, history_of.
    destruct (truthy _); [|done]. cbn.
    destruct (json_loads _) as [v|]; [|done]. cbn.
    destruct (iter_slice_from _ v) as [window|]; [|done]. cbn.
    by destruct (traverse _ window).
Qed.

Lemma get_chat_history_unconnected (limit : Z) st e st1 :
  ensure_client st = (Raise e, st1) →
  get_chat_history limit st = (Raise e, st1).
Proof. intros Hc. unfold get_chat_history. run. by rewrite Hc. Qed.

(** [get_chat_history] reads: whatever the store holds and whatever
    fails, it leaves the store, the published events, the table of
    handlers and the trace of invocations as they were. *)
Theorem load_is_read_only :
  ∀ (limit : Z) st,
    state_store (world (get_chat_history limit st).2) = state_store (world st)
    ∧ published (world (get_chat_history limit st).2) = published (world st)
    ∧ message_handlers (self (get_chat_history limit st).2)
      = message_handlers (self st)
    ∧ calls (get_chat_history limit st).2 = calls st.
Proof.
  intros limit st. destruct (ensure_client st) as [[[]|e] st1] eqn:Hc;
    destruct (ensure_client_world _ _ _ Hc) as (Hs & Hp & _ & _ & Hcalls);
    destruct (ensure_client_table _ _ _ Hc) as (Hh & _).
  - rewrite (get_chat_history_connected _ _ _ Hc).
    destruct (faults (world st1) (ticks (world st1))); [by cbn|].
    destruct (truthy _); [|by cbn].
    by destruct (history_of _ _).
  - by rewrite (get_chat_history_unconnected _ _ _ _ Hc).
Qed.

(** Once the client is there, [get_chat_history] returns a list and does
    not raise, whatever the store holds and whether or not the sidecar
    answers. *)
Theorem load_never_raises_once_connected :
  ∀ (limit : Z) st st1,
    ensure_client st = (Ok tt, st1) →
    ∃ messages : list ChatMessage,
      (get_chat_history limit st).1 = Ok messages.
Proof.
  intros limit st st1 Hc. rewrite (get_chat_history_connected _ _ _ Hc).
  destruct (faults (world st1) (ticks (world st1))); [by eexists|].
  destruct (truthy _); [|by eexists].
  destruct (history_of _ _); by eexists.
Qed.

Lemma traverse_Raise {A B} (f : A → Result B) (xs : list A) :
  Exists (λ x, is_Ok (f x) = false) xs ↔ is_Ok (traverse f xs) = false.
Proof.
  induction xs as [|x xs IH]; cbn.
  - split; [by inversion 1|done].
  - rewrite Exists_cons. destruct (f x) as [y|e]; cbn.
    + rewrite IH. destruct (traverse f xs); cbn; split; auto; by intros [?|?].
    + split; auto.
Qed.

(** All or nothing: when one entry among those the limit selects does not
    decode, [get_chat_history] returns the empty list and none of the
    entries that do decode. *)
Theorem load_is_all_or_nothing :
  ∀ (limit : Z) (items : list pyval) st st1,
    ensure_client st = (Ok tt, st1) →
    faults (world st1) (ticks (world st1)) = None →
    truthy (stored_history (world st1)) = true →
    json_loads (stored_history (world st1)) = Some (PyList items) →
    Exists (λ entry, is_Ok (ChatMessage_of entry) = false)
      (slice_from (- limit) items) →
    (get_chat_history limit st).1 = Ok []
    ∧ ∃ e, logs (get_chat_history limit st).2
           = logs st1 ++ [Error "Failed to get chat history: {e}" e].
Proof.
  intros limit items st st1 Hc Hf Htruthy Hloads Hbad.
  rewrite (get_chat_history_connected _ _ _ Hc), Hf, Htruthy.
  unfold history_of. cbn. rewrite Hloads. cbn.
  apply traverse_Raise in Hbad.
  destruct (traverse _ _) as [ms|e]; [done|]. cbn. split; [done|].
  by exists e.
Qed.

(** A stored text that is JSON but no list gives the empty list: a string
    can be sliced but its characters are no messages, and nothing else can
    be sliced. *)
Theorem load_of_non_list_is_empty :
  ∀ (limit : Z) (v : pyval) st st1,
    ensure_client st = (Ok tt, st1) →
    faults (world st1) (ticks (world st1)) = None →
    json_loads (stored_history (world st1)) = Some v →
    (∀ items, v ≠ PyList items) →
    (get_chat_history limit st).1 = Ok [].
Proof.
  intros limit v st st1 Hc Hf Hloads Hno.
  rewrite (get_chat_history_connected _ _ _ Hc), Hf.
  destruct (truthy _); [|done].
  unfold history_of. cbn. rewrite Hloads. cbn.
  destruct v as [| b | lit | s | items | items]; try done.
  - cbn. destruct (slice_from (- limit) (chars s)) as [|c cs] eqn:Hw; [done|].
    assert (∃ ch, c = PyStr ch) as [ch ->].
    { assert (c ∈ chars s) as Hin.
      { unfold slice_from in Hw.
        eapply (subseteq_drop _ (chars s)). rewrite Hw. by left. }
      clear -Hin. induction s as [|a s IH]; cbn in Hin.
      - by apply not_elem_of_nil in Hin.
      - apply elem_of_cons in Hin as [->|Hin]; eauto. }
    done.
  - by destruct (Hno items).
Qed.

Lemma ensure_client_connected st st1 :
  ensure_client st = (Ok tt, st1) →
  is_Some (client (self st1)) ∧ ensure_client st1 = (Ok tt, st1).
Proof.
  destruct (ensure_client_cases st)
    as [(c & Hc & ->) | [(_ & _ & ->) | (e & _ & _ & ->)]];
    intros [= <-].
  - split; [by exists c|]. by apply (ensure_client_present _ c).
  - split; [by eexists|]. by apply (ensure_client_present _ dapr_client).
Qed.

Lemma publish_message_unconnected m st e st1 :
  ensure_client st = (Raise e, st1) →
  publish_message m st = (Raise e, st1).
Proof. intros Hc. unfold publish_message. run. by rewrite Hc. Qed.

(** [publish_message] hands the sidecar one event when it returns and
    none when it raises; it never writes the store, changes the table of
    handlers or invokes a handler of its own process. *)
Theorem publish_sends_one_event_or_raises :
  ∀ m st,
    ((publish_message m st).1 = Ok tt
     ∧ published (world (publish_message m st).2)
       = published (world st) ++ [event_published (self st) m]
     ∨ (∃ e, (publish_message m st).1 = Raise e)
       ∧ published (world (publish_message m st).2) = published (world st))
    ∧ state_store (world (publish_message m st).2) = state_store (world st)
    ∧ message_handlers (self (publish_message m st).2)
      = message_handlers (self st)
    ∧ calls (publish_message m st).2 = calls st.
Proof.
  intros m st. destruct (ensure_client st) as [[[]|e] st1] eqn:Hc;
    destruct (ensure_client_world _ _ _ Hc) as (Hs & Hp & _ & _ & Hcalls);
    destruct (ensure_client_table _ _ _ Hc) as (Hh & _ & Hpub & Htop).
  - rewrite (publish_message_connected _ _ _ Hc).
    destruct (faults (world st1) (ticks (world st1))) as [e|]; cbn.
    + split; [|done]. right. split; [by exists e|done].
    + split; [|done]. left. split; [done|].
      unfold event_published. by rewrite Hp, Hpub, Htop.
  - rewrite (publish_message_unconnected _ _ _ _ Hc). cbn.
    split; [|done]. right. split; [by exists e|done].
Qed.

(** The connection is made once: a manager without a client connects on
    its first publication and publishes the second one over the same
    client, three calls to the sidecar in all. *)
Theorem connection_is_made_once :
  ∀ m1 m2 st,
    client (self st) = None →
    healthy (world st) →
    let st2 := (publish_message m2 (publish_message m1 st).2).2 in
    ticks (world st2) = (3 + ticks (world st))%nat
    ∧ published (world st2)
      = published (world st)
        ++ [event_published (self st) m1; event_published (self st) m2]
    ∧ logs st2
      = logs st
        ++ [Info "Dapr client initialized successfully";
            Info "Message published from {message.agent_name}: {message.message_id}";
            Info "Message published from {message.agent_name}: {message.message_id}"].
Proof.
  intros m1 m2 st Hnone Hw. cbn zeta.
  assert (ensure_client st = (Ok tt, connected dapr_client st)) as Hc.
  { rewrite ensure_client_absent by done.
    by rewrite initialize_accepted by by apply healthy_now. }
  rewrite (publish_message_connected _ _ _ Hc).
  assert (faults (world st) (S (ticks (world st))) = None) as Hf1
    by (apply Hw; lia).
  assert (faults (world st) (S (S (ticks (world st)))) = None) as Hf2
    by (apply Hw; lia).
  cbn. rewrite Hf1.
  match goal with
  | |- context [publish_message m2 ?s] =>
      rewrite (publish_message_connected m2 s s)
        by by apply (ensure_client_present _ dapr_client)
  end.
  cbn. rewrite Hf2. cbn. unfold event_published.
  by rewrite <- !app_assoc.
Qed.

(** [save_chat_history] writes one key: every other key of the store, the
    published events, the table of handlers and the trace of invocations
    are as before, whether the write succeeds, is refused or is never
    tried. *)
Theorem save_touches_only_its_key :
  ∀ (messages : list ChatMessage) st,
    (∀ k, k ≠ ("chat-state", "chat-history") →
          state_store (world (save_chat_history messages st).2) !! k
          = state_store (world st) !! k)
    ∧ published (world (save_chat_history messages st).2)
      = published (world st)
    ∧ message_handlers (self (save_chat_history messages st).2)
      = message_handlers (self st)
    ∧ calls (save_chat_history messages st).2 = calls st.
Proof.
  intros messages st. split.
  - intros k Hk. destruct (save_store messages st) as [-> | ->]; [done|].
    by rewrite lookup_insert_ne.
  - destruct (ensure_client st) as [[[]|e] st1] eqn:Hc;
      destruct (ensure_client_world _ _ _ Hc) as (_ & Hp & _ & _ & Hcalls);
      destruct (ensure_client_table _ _ _ Hc) as (Hh & _).
    + rewrite (save_chat_history_connected _ _ _ Hc).
      by destruct (faults (world st1) (ticks (world st1))).
    + by rewrite (save_chat_history_unconnected _ _ _ _ Hc).
Qed.

(** [cleanup]: without a client nothing happens; with one, the sidecar is
    asked once to close, a refusal is raised to the caller without being
    logged, and in every case the manager keeps the client it had. *)
Theorem cleanup_closes_and_keeps_the_client :
  ∀ st,
    (client (self st) = None → cleanup st = (Ok tt, st))
    ∧ (is_Some (client (self st)) →
       faults (world st) (ticks (world st)) = None →
       cleanup st
       = (Ok tt, {| self := self st; world := tick (world st);
                    logs := logs st ++ [Info "Dapr client closed"];
                    calls := calls st |}))
    ∧ (∀ e, is_Some (client (self st)) →
       faults (world st) (ticks (world st)) = Some e →
       cleanup st = (Raise e, after_call st))
    ∧ self (cleanup st).2 = self st.
Proof.
  intros st. unfold cleanup, close. run.
  destruct (client (self st)) as [c|] eqn:Hc.
  - split; [done|]. split; [|split].
    + intros _ Hf. by rewrite sidecar_call_accepted.
    + intros e _ Hf. by rewrite (sidecar_call_refused _ _ e).
    + destruct (faults (world st) (ticks (world st))) as [e|] eqn:Hf.
      * by rewrite (sidecar_call_refused _ _ e).
      * by rewrite sidecar_call_accepted.
  - split; [done|]. split; [by intros [? [=]]|]. split; [by intros e [? [=]]|done].
Qed.

End MoreSidecar.

(** ** Sessions of calls *)

Section Sessions.
Context `{PyLib} {App : Type}.
Implicit Types (m message : ChatMessage) (st : St (App := App)).

Lemma grows_refl st : grows st st.
Proof. by repeat split. Qed.

Lemma grows_trans st1 st2 st3 : grows st1 st2 → grows st2 st3 → grows st1 st3.
Proof.
  intros (Ha & Hp & Ht & Hc & Hk & Hn & Hl & Hcs)
         (Ha' & Hp' & Ht' & Hc' & Hk' & Hn' & Hl' & Hcs').
  repeat split; try congruence; auto.
  - by transitivity (logs st2).
  - by transitivity (calls st2).
Qed.

(** A step that leaves the manager alone and adds to the log. *)
Lemma grows_same_self st st' :
  self st' = self st → logs st `prefix_of` logs st' →
  calls st `prefix_of` calls st' → grows st st'.
Proof. intros Hs Hl Hc. unfold grows. rewrite Hs. by repeat split. Qed.

Lemma grows_ensure_client (r : Result unit) st st1 :
  ensure_client st = (r, st1) → grows st st1.
Proof.
  destruct (ensure_client_cases st)
    as [(c & _ & ->) | [(_ & _ & ->) | (e & _ & _ & ->)]];
    intros [= _ <-].
  - apply grows_refl.
  - repeat split; cbn; auto; try done. by apply prefix_app_r.
  - apply grows_same_self; cbn; [done| by apply prefix_app_r | done].
Qed.

Lemma has_key_dict_set {V} (k name : string) (v : V) (items : list (string * V)) :
  has_key name items = true → has_key name (dict_set k v items) = true.
Proof.
  unfold has_key. induction items as [|[k2 v2] items IH]; [done|]. cbn.
  destruct (String.eqb_spec k k2) as [->|Hk]; cbn; [by intros Hn|].
  intros [Hn|Hn]%orb_true_iff.
  - by rewrite Hn.
  - rewrite (IH Hn). apply orb_true_r.
Qed.

Lemma grows_perform (c : MethodCall) st : grows st (perform c st).2.
Proof.
  destruct c as [| m | name h | event_data | limit | messages |]; cbn [perform].
  - (* initialize *)
    destruct (faults (world st) (ticks (world st))) as [e|] eqn:Hf.
    + rewrite (initialize_refused _ e) by done.
      apply grows_same_self; cbn; [done| by apply prefix_app_r | done].
    + rewrite initialize_accepted by done.
      repeat split; cbn; auto; try done. by apply prefix_app_r.
  - (* publish_message *)
    destruct (ensure_client st) as [[[]|e] st1] eqn:Hc;
      pose proof (grows_ensure_client _ _ _ Hc) as Hg.
    + rewrite (publish_message_connected _ _ _ Hc).
      eapply grows_trans; [exact Hg|].
      destruct (faults (world st1) (ticks (world st1)));
        apply grows_same_self; cbn; try done; by apply prefix_app_r.
    + by rewrite (publish_message_unconnected _ _ _ _ Hc).
  - (* subscribe_to_messages *)
    repeat split; cbn; auto.
    + intros other. apply has_key_dict_set.
    + apply dict_set_keys_NoDup.
    + by apply prefix_app_r.
  - (* handle_incoming_message *)
    destruct (decode_event event_data) as [m|e] eqn:Hm.
    + rewrite (handle_incoming_message_decoded _ m) by done.
      destruct (route_prefix (message_handlers (self st)) m st)
        as (k & Hself & Hlogs & Hcalls).
      destruct (route _ _ _) as [[[]|e] st']; cbn in *;
        apply grows_same_self; cbn; rewrite ?Hlogs, ?Hcalls; try done;
        by apply prefix_app_r.
    + rewrite (handle_incoming_message_undecoded _ e) by done.
      apply grows_same_self; cbn; [done| by apply prefix_app_r | done].
  - (* get_chat_history *)
    unfold mbind, M_bind, mret, M_ret.
    destruct (ensure_client st) as [[[]|e] st1] eqn:Hc;
      pose proof (grows_ensure_client _ _ _ Hc) as Hg.
    + rewrite (get_chat_history_connected _ _ _ Hc).
      eapply grows_trans; [exact Hg|].
      destruct (faults (world st1) (ticks (world st1))).
      { apply grows_same_self; cbn; try done; by apply prefix_app_r. }
      destruct (truthy _); [|by apply grows_same_self].
      destruct (history_of _ _);
        apply grows_same_self; cbn; try done; by apply prefix_app_r.
    + by rewrite (get_chat_history_unconnected _ _ _ _ Hc).
  - (* save_chat_history *)
    destruct (ensure_client st) as [[[]|e] st1] eqn:Hc;
      pose proof (grows_ensure_client _ _ _ Hc) as Hg.
    + rewrite (save_chat_history_connected _ _ _ Hc).
      eapply grows_trans; [exact Hg|].
      destruct (faults (world st1) (ticks (world st1)));
        apply grows_same_self; cbn; try done; by apply prefix_app_r.
    + by rewrite (save_chat_history_unconnected _ _ _ _ Hc).
  - (* cleanup *)
    unfold cleanup, close. run.
    destruct (client (self st)) as [c|]; [|apply grows_refl].
    destruct (faults (world st) (ticks (world st))) as [e|] eqn:Hf.
    + rewrite (sidecar_call_refused _ _ e) by done. by apply grows_same_self.
    + rewrite sidecar_call_accepted by done.
      apply grows_same_self; cbn; try done; by apply prefix_app_r.
Qed.

(** Whatever methods a caller calls, in whatever order and whatever
    fails: the manager keeps its [app_id], pubsub and topic names; a
    client it has it keeps (no method sets it back to [None], [cleanup]
    included); a registered name stays registered (nothing removes a
    handler) and the names stay distinct; the log and the trace of
    invocations are only added to. *)
Theorem session_grows : ∀ (cs : list MethodCall) st, grows st (session cs st).
Proof.
  intros cs. induction cs as [|c cs IH]; intros st; cbn [session].
  - apply grows_refl.
  - eapply grows_trans; [apply grows_perform|apply IH].
Qed.

(** What one call does to the table of handlers, and what a call other
    than a dispatch leaves alone. *)
Lemma perform_frame (c : MethodCall) st :
  message_handlers (self (perform c st).2)
  = match c with
    | CallSubscribe name h => dict_set name h (message_handlers (self st))
    | _ => message_handlers (self st)
    end
  ∧ (dispatches c = false →
     calls (perform c st).2 = calls st
     ∧ app_state (world (perform c st).2) = app_state (world st)).
Proof.
  destruct c as [| m | name h | event_data | limit | messages |]; cbn [perform].
  - destruct (faults (world st) (ticks (world st))) as [e|] eqn:Hf.
    + by rewrite (initialize_refused _ e).
    + by rewrite initialize_accepted.
  - destruct (ensure_client_cases st)
      as [(c & _ & Hc) | [(_ & _ & Hc) | (e & _ & _ & Hc)]];
      rewrite ?(publish_message_connected m _ _ Hc),
        ?(publish_message_unconnected m _ _ _ Hc); cbn;
      try done; by destruct (faults _ _).
  - done.
  - split; [|done].
    destruct (decode_event event_data) as [m|e] eqn:Hm.
    + rewrite (handle_incoming_message_decoded _ m) by done.
      destruct (route_prefix (message_handlers (self st)) m st)
        as (k & Hself & _).
      destruct (route _ _ _) as [[[]|e] st']; cbn in *; by rewrite Hself.
    + by rewrite (handle_incoming_message_undecoded _ e).
  - unfold mbind, M_bind, mret, M_ret.
    destruct (ensure_client_cases st)
      as [(c & _ & Hc) | [(_ & _ & Hc) | (e & _ & _ & Hc)]];
      rewrite ?(get_chat_history_connected limit _ _ Hc),
        ?(get_chat_history_unconnected limit _ _ _ Hc);
      cbn -[history_of]; try done;
      (destruct (faults _ _); cbn -[history_of]; [done|]);
      (destruct (truthy _); cbn -[history_of]; [|done]);
      by destruct (history_of _ _).
  - destruct (ensure_client_cases st)
      as [(c & _ & Hc) | [(_ & _ & Hc) | (e & _ & _ & Hc)]];
      rewrite ?(save_chat_history_connected messages _ _ Hc),
        ?(save_chat_history_unconnected messages _ _ _ Hc); cbn;
      try done; by destruct (faults _ _).
  - unfold cleanup, close. run.
    destruct (client (self st)) as [c|]; [|done].
    destruct (faults (world st) (ticks (world st))) as [e|] eqn:Hf.
    + by rewrite (sidecar_call_refused _ _ e).
    + by rewrite sidecar_call_accepted.
Qed.

Lemma has_key_elem_of {V} (name : string) (items : list (string * V)) :
  has_key name items = true ↔ name ∈ items.*1.
Proof.
  unfold has_key. induction items as [|[k v] items IH]; cbn.
  - split; [done|]. by intros ?%not_elem_of_nil.
  - rewrite orb_true_iff, elem_of_cons, IH, String.eqb_eq. done.
Qed.

Lemma has_key_dict_set_iff {V} (k name : string) (v : V)
    (items : list (string * V)) :
  has_key name (dict_set k v items) = true
  ↔ has_key name items = true ∨ name = k.
Proof.
  rewrite !has_key_elem_of, dict_set_keys.
  destruct (has_key k items) eqn:Hk.
  - apply has_key_elem_of in Hk. split; [by left|].
    by intros [Hin| ->].
  - by rewrite elem_of_app, list_elem_of_singleton.
Qed.

(** The handlers of a manager are those that were subscribed to it: a
    name is registered after a session exactly when it was registered
    before or one of the calls subscribed it.  No method removes a
    handler, and no other method adds one. *)
Theorem registered_names_come_from_subscribe :
  ∀ (cs : list MethodCall) st (name : string),
    has_key name (message_handlers (self (session cs st))) = true
    ↔ has_key name (message_handlers (self st)) = true
      ∨ ∃ h, CallSubscribe name h ∈ cs.
Proof.
  intros cs. induction cs as [|c cs IH]; intros st name; cbn [session].
  - split; [by left|]. intros [Hk|[h Hin]]; [done|].
    by apply not_elem_of_nil in Hin.
  - rewrite IH. destruct (perform_frame c st) as [-> _].
    assert (∀ P : Prop,
      (∀ k h, c ≠ CallSubscribe k h) →
      P ∨ (∃ h, CallSubscribe name h ∈ cs)
      ↔ P ∨ (∃ h, CallSubscribe name h ∈ c :: cs)) as Hother.
    { intros P Hc. split; intros [HP|[h Hin]]; auto; right; exists h.
      - by apply elem_of_cons; right.
      - apply elem_of_cons in Hin as [<-|Hin]; [by destruct (Hc name h)|done]. }
    destruct c as [| m | k h | event_data | limit | messages |];
      try (by apply Hother).
    rewrite has_key_dict_set_iff. clear Hother. split.
    + intros [[Hk| ->]|[h' Hin]]; auto; right.
      * exists h. by apply elem_of_cons; left.
      * exists h'. by apply elem_of_cons; right.
    + intros [Hk|[h' Hin]]; [by left; left|].
      apply elem_of_cons in Hin as [[= -> ->]|Hin]; [by left; right|].
      right. by exists h'.
Qed.

(** Handlers run in [handle_incoming_message] and nowhere else: calls of
    the other methods, in any number and order and whatever fails, invoke
    no handler and leave the subscribers' own state as it was. *)
Theorem only_dispatch_invokes_handlers :
  ∀ (cs : list MethodCall) st,
    Forall (λ c, dispatches c = false) cs →
    calls (session cs st) = calls st
    ∧ app_state (world (session cs st)) = app_state (world st).
Proof.
  intros cs. induction cs as [|c cs IH]; intros st Hcs; cbn [session]; [done|].
  apply Forall_cons in Hcs as [Hc Hcs].
  destruct (perform_frame c st) as [_ Hframe].
  destruct (Hframe Hc) as [<- <-]. by apply IH.
Qed.
End Sessions.

(** ** The module-level senders *)

Section Sending.
Context `{PyLib} {App : Type}.
Implicit Types (m message : ChatMessage) (st : St (App := App)).

Lemma create_chat_manager_accepted st :
  faults (world st) (ticks (world st)) = None →
  create_chat_manager st
  = (Ok {| app_id := "multi-agent-chat"; pubsub_name := "chat-pubsub";
           topic_name := "agent-messages"; client := Some dapr_client;
           message_handlers := [] |},
     {| self := self st; world := tick (world st);
        logs := logs st ++ [Info "Dapr client initialized successfully"];
        calls := calls st |}).
Proof.
  intros Hf. unfold create_chat_manager, with_manager.
  unfold mbind at 1, M_bind at 1. by rewrite initialize_accepted.
Qed.

Lemma create_chat_manager_refused st e :
  faults (world st) (ticks (world st)) = Some e →
  create_chat_manager st
  = (Raise e, after_refusal "Failed to initialize Dapr client: {e}" e st).
Proof.
  intros Hf. unfold create_chat_manager, with_manager.
  unfold mbind at 1, M_bind at 1. by rewrite (initialize_refused _ e).
Qed.

(** [create_chat_manager] hands out a manager of its own that is
    connected and has no handler, after one call to the sidecar, or
    raises what the connection raised; the manager of the caller is not
    touched. *)
Theorem create_chat_manager_connects_or_raises :
  ∀ st,
    (faults (world st) (ticks (world st)) = None →
     ∃ manager,
       (create_chat_manager st).1 = Ok manager
       ∧ is_Some (client manager) ∧ message_handlers manager = []
       ∧ app_id manager = "multi-agent-chat"
       ∧ pubsub_name manager = "chat-pubsub"
       ∧ topic_name manager = "agent-messages")
    ∧ (∀ e, faults (world st) (ticks (world st)) = Some e →
       (create_chat_manager st).1 = Raise e)
    ∧ self (create_chat_manager st).2 = self st
    ∧ ticks (world (create_chat_manager st).2) = S (ticks (world st)).
Proof.
  intros st. split; [|split].
  - intros Hf. rewrite create_chat_manager_accepted by done.
    eexists. split; [done|]. by repeat split.
  - intros e Hf. by rewrite (create_chat_manager_refused _ e).
  - destruct (faults (world st) (ticks (world st))) as [e|] eqn:Hf.
    + by rewrite (create_chat_manager_refused _ e).
    + by rewrite create_chat_manager_accepted.
Qed.

(** On a sidecar that accepts its calls, [send_agent_message] returns the
    id it drew, after three calls to the sidecar: connect, publish, close.
    One event went out, with the payload of a message that has the
    arguments, the time and the id of this call; the manager of the
    caller, the store and the handlers are out of it. *)
Theorem send_agent_message_delivers :
  ∀ (agent_name role content : string) (now : datetime) (uuid : string) st,
    healthy (world st) →
    send_agent_message agent_name role content now uuid st
    = (Ok uuid,
       {| self := self st;
          world :=
            {| state_store := state_store (world st);
               published := published (world st)
                 ++ [event_published (App := App) (DaprChatManager_init "multi-agent-chat")
                       {| agent_name := PyStr agent_name; role := PyStr role;
                          content := PyStr content; timestamp := now;
                          message_id := PyStr uuid |}];
               ticks := 3 + ticks (world st);
               faults := faults (world st);
               app_state := app_state (world st) |};
          logs := logs st
            ++ [Info "Dapr client initialized successfully";
                Info "Message published from {message.agent_name}: {message.message_id}";
                Info "Dapr client closed"];
          calls := calls st |}).
Proof.
  intros agent_name role content now uuid st Hw.
  pose proof (Hw (ticks (world st)) ltac:(lia)) as H0.
  pose proof (Hw (S (ticks (world st))) ltac:(lia)) as H1.
  pose proof (Hw (S (S (ticks (world st)))) ltac:(lia)) as H2.
  unfold send_agent_message. unfold mbind at 1, M_bind at 1.
  rewrite create_chat_manager_accepted by done.
  unfold with_manager, mbind, M_bind, mret, M_ret.
  erewrite publish_message_connected by by eapply ensure_client_present.
  cbn. rewrite H1. unfold cleanup, close. run.
  rewrite sidecar_call_accepted by done. cbn.
  by rewrite <- !app_assoc.
Qed.

(** [send_agent_message] has no [try]: each of its three calls to the
    sidecar can fail, and the failure reaches the caller.  A refused
    publication skips [cleanup], so the client is never closed; a refused
    [close] raises although the event went out. *)
Theorem send_agent_message_failures :
  ∀ (agent_name role content : string) (now : datetime) (uuid : string) st e,
    let w := world st in
    let sent := send_agent_message agent_name role content now uuid st in
    (faults w (ticks w) = Some e →
     sent = (Raise e,
             after_refusal "Failed to initialize Dapr client: {e}" e st))
    ∧ (faults w (ticks w) = None → faults w (S (ticks w)) = Some e →
       sent.1 = Raise e
       ∧ published (world sent.2) = published w
       ∧ ticks (world sent.2) = (2 + ticks w)%nat
       ∧ logs sent.2
         = logs st ++ [Info "Dapr client initialized successfully";
                       Error "Failed to publish message: {e}" e])
    ∧ (faults w (ticks w) = None → faults w (S (ticks w)) = None →
       faults w (S (S (ticks w))) = Some e →
       sent.1 = Raise e
       ∧ published (world sent.2)
         = published w
           ++ [event_published (App := App) (DaprChatManager_init "multi-agent-chat")
                 {| agent_name := PyStr agent_name; role := PyStr role;
                    content := PyStr content; timestamp := now;
                    message_id := PyStr uuid |}]
       ∧ ticks (world sent.2) = (3 + ticks w)%nat
       ∧ logs sent.2
         = logs st ++ [Info "Dapr client initialized successfully";
                       Info "Message published from {message.agent_name}: {message.message_id}"]).
Proof.
  intros agent_name role content now uuid st e w sent. subst w sent.
  unfold send_agent_message, mbind, M_bind, mret, M_ret.
  split; [|split].
  - intros H0. by rewrite (create_chat_manager_refused _ e).
  - intros H0 H1. rewrite create_chat_manager_accepted by done.
    unfold with_manager.
    erewrite publish_message_connected by by eapply ensure_client_present.
    cbn. rewrite H1. cbn. by rewrite <- !app_assoc.
  - intros H0 H1 H2. rewrite create_chat_manager_accepted by done.
    unfold with_manager.
    erewrite publish_message_connected by by eapply ensure_client_present.
    cbn. rewrite H1. unfold cleanup, close. run.
    rewrite (sidecar_call_refused _ _ e) by done. cbn.
    by rewrite <- !app_assoc.
Qed.
End Sending.

(** ** Across processes and across calls *)

Section MoreWire.
Context `{PyLibLaws} {App : Type}.
Implicit Types (m message : ChatMessage) (st : St (App := App)).

Lemma decode_event_delivery (this : DaprChatManager (App := App)) m :
  well_formed m → decode_event (delivery (event_published this m)) = Ok m.
Proof.
  intros Hm. unfold decode_event, event_payload, delivery. cbn.
  rewrite lookup_singleton_eq. cbn.
  rewrite json_loads_dumps by by apply message_data_json_ok.
  cbn. apply ChatMessage_of_message_data.
Qed.

(** From one process to another: the event that [publish_message] hands
    to the sidecar for a well-formed message, delivered to a process
    where agents are subscribed, reaches the handlers of the agents other
    than the sender with a message equal to the one that was published. *)
Theorem published_event_reaches_subscribers :
  ∀ m (sender receiver : St (App := App)) w',
    well_formed m →
    healthy (world sender) →
    run_all (eligible (message_handlers (self receiver)) m) m (world receiver)
    = Some w' →
    published (world (publish_message m sender).2)
    = published (world sender) ++ [event_published (self sender) m]
    ∧ handle_incoming_message (delivery (event_published (self sender) m))
        receiver
      = (Ok tt,
         {| self := self receiver; world := w'; logs := logs receiver;
            calls := calls receiver
              ++ (call_of m <$> eligible (message_handlers (self receiver)) m)
         |}).
Proof.
  intros m sender receiver w' Hm Hw Hrun. split.
  - destruct (ensure_client_healthy sender Hw) as (st1 & Hc & Hw1 & _).
    destruct (ensure_client_world _ _ _ Hc) as (_ & Hp & _).
    destruct (ensure_client_table _ _ _ Hc) as (_ & _ & Hpub & Htop).
    rewrite (publish_message_connected _ _ _ Hc), (healthy_now _ Hw1). cbn.
    unfold event_published. by rewrite Hp, Hpub, Htop.
  - rewrite (handle_incoming_message_decoded _ m)
      by by apply decode_event_delivery.
    by rewrite (route_returns _ _ _ w').
Qed.

Lemma drop_min_length {A} (n : nat) (xs : list A) :
  drop (n `min` length xs) xs = drop n xs.
Proof.
  destruct (Nat.le_gt_cases n (length xs)).
  - by rewrite Nat.min_l.
  - rewrite Nat.min_r by lia. rewrite !drop_ge; [done|lia|lia].
Qed.

Lemma slice_from_nonneg {A} (start : Z) (xs : list A) :
  0 ≤ start → slice_from start xs = drop (Z.to_nat start) xs.
Proof.
  intros Hs. unfold slice_from.
  destruct (Z.ltb_spec start 0); [lia|].
  rewrite <- (drop_min_length (Z.to_nat start)). f_equal. lia.
Qed.

(** Saving a log and loading it again, on a sidecar that accepts its
    calls: a positive limit gives the last [limit] messages, oldest first,
    and the whole log when it is no longer than the limit; a limit of zero
    or less gives the log without its [-limit] oldest messages. *)
Theorem load_after_save :
  ∀ (limit : Z) (messages : list ChatMessage) st,
    Forall well_formed messages →
    healthy (world st) →
    let loaded := (get_chat_history limit (save_chat_history messages st).2).1 in
    (0 < limit →
     loaded = Ok (drop (length messages - Z.to_nat limit) messages))
    ∧ (Z.of_nat (length messages) ≤ limit → loaded = Ok messages)
    ∧ (limit ≤ 0 → loaded = Ok (drop (Z.to_nat (- limit)) messages)).
Proof.
  intros limit messages st Hwf Hw loaded.
  destruct (save_persists messages st Hw) as (_ & Hp & Hw2).
  destruct (ensure_client_healthy _ Hw2) as (st3 & Hc & Hw3 & Hstore).
  assert (loaded = Ok (slice_from (- limit) messages)) as ->.
  { subst loaded.
    rewrite (get_chat_history_persisted limit messages _ st3); try done.
    - by apply healthy_now.
    - unfold persisted. by rewrite Hstore. }
  split; [|split].
  - intros Hl. by rewrite slice_from_last.
  - intros Hl. destruct (Z.ltb_spec 0 limit).
    + rewrite slice_from_last by done.
      replace (length messages - Z.to_nat limit)%nat with 0%nat by lia.
      done.
    + rewrite slice_from_nonneg by lia.
      destruct messages; [|cbn in *; lia]. by rewrite drop_nil.
  - intros Hl. rewrite slice_from_nonneg by lia. done.
Qed.

(** Entries older than those the limit selects are not looked at: when
    the stored list ends with the dicts of the messages [recent] and the
    limit selects among them, the selected messages come back whatever
    stands before them, be it no message at all. *)
Theorem load_ignores_older_entries :
  ∀ (limit : Z) (older : list pyval) (recent : list ChatMessage) st st1,
    ensure_client st = (Ok tt, st1) →
    faults (world st1) (ticks (world st1)) = None →
    truthy (stored_history (world st1)) = true →
    json_loads (stored_history (world st1))
    = Some (PyList (older ++ (message_data <$> recent))) →
    0 < limit ≤ Z.of_nat (length recent) →
    (get_chat_history limit st).1
    = Ok (drop (length recent - Z.to_nat limit) recent).
Proof.
  intros limit older recent st st1 Hc Hf Htruthy Hloads Hl.
  rewrite (get_chat_history_connected _ _ _ Hc), Hf, Htruthy.
  unfold history_of. cbn. rewrite Hloads. cbn.
  rewrite slice_from_last by lia.
  rewrite length_app, length_fmap, drop_app, drop_ge by lia.
  replace (length older + length recent - Z.to_nat limit - length older)%nat
    with (length recent - Z.to_nat limit)%nat by lia.
  rewrite app_nil_l, <- fmap_drop, traverse_message_data. done.
Qed.
End MoreWire.

(** ** The executable library satisfies the laws *)

(** Induction on a value together with the values inside it. *)
Lemma pyval_ind (P : pyval → Prop) :
  P PyNone →
  (∀ b, P (PyBool b)) →
  (∀ lit, P (PyNum lit)) →
  (∀ s, P (PyStr s)) →
  (∀ items, Forall P items → P (PyList items)) →
  (∀ items, Forall (λ kv, P kv.2) items → P (PyDict items)) →
  ∀ v, P v.
Proof.
  intros HNone HBool HNum HStr HList HDict. fix IH 1.
  intros [| b | lit | s | items | items].
  - apply HNone.
  - apply HBool.
  - apply HNum.
  - apply HStr.
  - apply HList. induction items as [|x xs IHxs]; constructor.
    + apply IH.
    + apply IHxs.
  - apply HDict. induction items as [|[k x] xs IHxs]; constructor.
    + apply IH.
    + apply IHxs.
Qed.

Module PyFacts.
Import Py.

(** *** Timestamps *)

Section Timestamps.
Local Open Scope N_scope.

Lemma digit_value_digit_char (n : N) :
  digit_value (digit_char n) = Some (n mod 10).
Proof.
  unfold digit_value, digit_char.
  assert (n mod 10 < 10) as Hlt by (apply N.mod_upper_bound; lia).
  revert Hlt. generalize (n mod 10). intros r Hr.
  rewrite N_ascii_embedding by lia.
  destruct (N.leb_spec 48 (48 + r)); [|lia].
  destruct (N.leb_spec (48 + r) 57); [|lia].
  cbn. f_equal. lia.
Qed.

Lemma read_put_digits (width extra : nat) (n acc : N) (tail : string) :
  n < 10 ^ N.of_nat width →
  read_digits (width + extra) acc (put_digits width n tail)
  = read_digits extra (acc * 10 ^ N.of_nat width + n) tail.
Proof.
  revert extra n tail. induction width as [|width IH]; intros extra n tail Hn.
  - cbn in *. f_equal. lia.
  - cbn [put_digits]. rewrite Nat2N.inj_succ, N.pow_succ_r' in Hn.
    replace (S width + extra)%nat with (width + S extra)%nat by lia.
    rewrite IH.
    + cbn [read_digits]. rewrite digit_value_digit_char. f_equal.
      rewrite Nat2N.inj_succ, N.pow_succ_r'.
      assert (n = 10 * (n / 10) + n mod 10) as Hdm by (apply N.div_mod; lia).
      revert Hdm. generalize (n mod 10) (n / 10). intros r q Hdm. lia.
    + apply N.Div0.div_lt_upper_bound. lia.
Qed.

Lemma read_digits_put_digits (width : nat) (n : N) (tail : string) :
  n < 10 ^ N.of_nat width →
  read_digits width 0 (put_digits width n tail) = Some (n, tail).
Proof.
  intros Hn. replace width with (width + 0)%nat at 1 by lia.
  rewrite read_put_digits by done. cbn. f_equal. 
Qed.

Lemma days_in_month_le (y m : N) : days_in_month y m <= 31.
Proof. unfold days_in_month. repeat case_match; lia. Qed.

Lemma read_isoformat_put_isoformat (t : fields) :
  valid t → read_isoformat (put_isoformat t) = Some t.
Proof.
  unfold valid. rewrite !andb_True.
  rewrite !Is_true_true, !N.leb_le, !N.ltb_lt.
  intros (((((((((Hy1 & Hy2) & Hmo1) & Hmo2) & Hd1) & Hd2) & Hh) & Hmi) & Hs) & Hus).
  pose proof (days_in_month_le (year t) (month t)).
  unfold read_isoformat, put_isoformat.
  repeat (rewrite read_digits_put_digits by (cbn; lia);
          cbn -[put_digits read_digits N.eqb]).
  destruct t as [y mo d h mi s us]. cbn -[put_digits read_digits N.eqb] in *.
  destruct (N.eqb_spec us 0) as [->|Hne]; [done|].
  cbn -[put_digits read_digits].
  by rewrite read_digits_put_digits by (cbn; lia).
Qed.

Lemma fromisoformat_reads_isoformat (t : naive_datetime) :
  fromisoformat (isoformat t) = Some t.
Proof.
  destruct t as [f ok]. unfold fromisoformat, isoformat. cbn [proj1_sig].
  rewrite read_isoformat_put_isoformat by done. cbn.
  destruct (decide (valid f)) as [ok'|]; [|done].
  do 2 f_equal. apply proof_irrel.
Qed.

End Timestamps.

(** *** JSON text *)

Lemma read_chars_put_char (c : ascii) (rest : string) :
  read_chars (put_char c rest) = cons_char c (read_chars rest).
Proof.
  destruct c as [[] [] [] [] [] [] [] []]; reflexivity.
Qed.

Lemma read_chars_put_chars (s tail : string) :
  read_chars (put_chars s (String dquote tail)) = Some (s, tail).
Proof.
  induction s as [|c s IH]; [done|].
  cbn [put_chars]. by rewrite read_chars_put_char, IH.
Qed.

Lemma number_start_value_start c : number_start c = true → value_start c = true.
Proof. unfold value_start. intros ->. by rewrite !orb_true_r. Qed.

Lemma put_head (v : pyval) (tail : string) :
  json_ok v → ∃ c rest, put v tail = String c rest ∧ value_start c = true.
Proof.
  destruct v as [| [] | [|c lit] | s | [|x xs] | [|kv kvs]]; cbn; try done;
    try by eexists _, _.
  intros [Hc _]%andb_True. apply Is_true_true in Hc.
  exists c, (lit +:+ tail). split; [done|]. by apply number_start_value_start.
Qed.

Lemma value_start_not_space c : value_start c = true → is_space c = false.
Proof. destruct c as [[] [] [] [] [] [] [] []]; done. Qed.

Lemma value_start_not_closing c :
  value_start c = true → Ascii.eqb c "]" = false ∧ Ascii.eqb c "}" = false.
Proof. destruct c as [[] [] [] [] [] [] [] []]; done. Qed.

Lemma skip_ws_put (v : pyval) (tail : string) :
  json_ok v → skip_ws (put v tail) = put v tail.
Proof.
  intros Hv. destruct (put_head v tail Hv) as (c & rest & -> & Hc).
  cbn. by rewrite value_start_not_space.
Qed.

Lemma append_nil (s : string) : "" +:+ s = s.
Proof. reflexivity. Qed.

Lemma append_cons (c : ascii) (s t : string) :
  String c s +:+ t = String c (s +:+ t).
Proof. reflexivity. Qed.

Lemma take_number_append (s tail : string) :
  string_forallb number_char s → tail_ok tail →
  take_number (s +:+ tail) = (s, tail).
Proof.
  intros Hs Htail.
  induction s as [|c s IH];
    rewrite ?append_nil, ?append_cons; cbn -[number_char] in *.
  - destruct tail as [|c tail]; [done|].
    cbn -[number_char] in *. by rewrite Htail.
  - apply andb_True in Hs as [Hc Hs]. apply Is_true_true in Hc.
    by rewrite Hc, IH.
Qed.

Lemma number_start_head c :
  number_start c = true →
  Ascii.eqb c dquote = false ∧ Ascii.eqb c "[" = false
  ∧ Ascii.eqb c "{" = false ∧ number_char c = true.
Proof. destruct c as [[] [] [] [] [] [] [] []]; done. Qed.

Lemma parse_S (fuel : nat) (c : ascii) (rest : string) :
  parse (S fuel) (String c rest)
  = if Ascii.eqb c dquote then
      '(str, r) ← read_chars rest; Some (PyStr str, r)
    else if Ascii.eqb c "[" then
      match skip_ws rest with
      | String c' r' =>
          if Ascii.eqb c' "]" then Some (PyList [], r')
          else '(vs, r) ← parse_elems fuel (skip_ws rest);
               Some (PyList vs, r)
      | EmptyString => None
      end
    else if Ascii.eqb c "{" then
      match skip_ws rest with
      | String c' r' =>
          if Ascii.eqb c' "}" then Some (PyDict [], r')
          else '(kvs, r) ← parse_members fuel (skip_ws rest);
               Some (PyDict (dict_of_items kvs), r)
      | EmptyString => None
      end
    else if number_start c then
      let (lit, r) := take_number (String c rest) in Some (PyNum lit, r)
    else read_keyword (String c rest).
Proof. reflexivity. Qed.

Lemma parse_elems_S (fuel : nat) (s : string) :
  parse_elems (S fuel) s
  = '(v, r) ← parse fuel s;
    match skip_ws r with
    | String c r' =>
        if Ascii.eqb c "]" then Some ([v], r')
        else if Ascii.eqb c "," then
          '(vs, r'') ← parse_elems fuel (skip_ws r'); Some (v :: vs, r'')
        else None
    | EmptyString => None
    end.
Proof. reflexivity. Qed.

Lemma parse_members_S (fuel : nat) (q : ascii) (rest : string) :
  parse_members (S fuel) (String q rest)
  = if Ascii.eqb q dquote then
      '(k, r) ← read_chars rest;
      match skip_ws r with
      | String c r' =>
          if Ascii.eqb c ":" then
            '(v, r'') ← parse fuel (skip_ws r');
            match skip_ws r'' with
            | String c' r3 =>
                if Ascii.eqb c' "}" then Some ([(k, v)], r3)
                else if Ascii.eqb c' "," then
                  '(kvs, r4) ← parse_members fuel (skip_ws r3);
                  Some ((k, v) :: kvs, r4)
                else None
            | EmptyString => None
            end
          else None
      | EmptyString => None
      end
    else None.
Proof. reflexivity. Qed.

Lemma parse_elems_put (x : pyval) (xs : list pyval) (fuel : nat) (tail : string) :
  Forall parses (x :: xs) → Forall json_ok (x :: xs) →
  (foldr (λ x n, S (weight x + n)) 0 (x :: xs) ≤ fuel)%nat →
  parse_elems fuel (put x (put_more put xs tail)) = Some (x :: xs, tail).
Proof.
  revert x fuel. induction xs as [|y ys IH]; intros x fuel Hp Hok Hfuel.
  - destruct fuel as [|fuel]; [cbn in Hfuel; lia|].
    rewrite parse_elems_S. apply Forall_cons in Hp as [Hx _].
    rewrite Hx; [done| cbn in Hfuel; lia | done].
  - destruct fuel as [|fuel]; [cbn in Hfuel; lia|].
    rewrite parse_elems_S. apply Forall_cons in Hp as [Hx Hp].
    apply Forall_cons in Hok as [_ Hok].
    cbn [put_more]. rewrite Hx; [| cbn in Hfuel; cbn; lia | done].
    cbn -[put parse_elems].
    pose proof Hok as [Hy _]%Forall_cons.
    rewrite skip_ws_put by done.
    rewrite IH; [done | done | done | cbn in *; lia].
Qed.

Lemma skip_ws_put_string (k tail : string) :
  skip_ws (put_string k tail) = put_string k tail.
Proof. reflexivity. Qed.

Lemma parse_members_put (kv : string * pyval) (kvs : list (string * pyval))
    (fuel : nat) (tail : string) :
  Forall (λ kv, parses kv.2) (kv :: kvs) →
  Forall (λ kv, json_ok kv.2) (kv :: kvs) →
  (foldr (λ kv n, S (weight kv.2 + n)) 0 (kv :: kvs) ≤ fuel)%nat →
  parse_members fuel
    (put_string kv.1 (String ":" (String " "
       (put kv.2 (put_more_members put kvs tail)))))
  = Some (kv :: kvs, tail).
Proof.
  revert kv fuel. induction kvs as [|kv' kvs IH]; intros [k v] fuel Hp Hok Hfuel;
    (destruct fuel as [|fuel]; [cbn in Hfuel; lia|]);
    apply Forall_cons in Hp as [Hv Hp]; apply Forall_cons in Hok as [Hvok Hok];
    unfold put_string; rewrite parse_members_S;
    cbn -[put parse parse_members read_chars];
    rewrite read_chars_put_chars; cbn -[put parse parse_members];
    rewrite skip_ws_put by done.
  - rewrite Hv; [done | cbn in *; lia | done].
  - rewrite Hv; [| cbn in *; lia | done].
    cbn -[put parse_members put_string]. rewrite skip_ws_put_string.
    rewrite IH; [done | done | done | cbn in *; lia].
Qed.

Lemma has_key_app {V} (k : string) (xs ys : list (string * V)) :
  has_key k (xs ++ ys) = has_key k xs || has_key k ys.
Proof. unfold has_key. apply existsb_app. Qed.

Lemma dict_set_fresh {V} (k : string) (v : V) (items : list (string * V)) :
  has_key k items = false → dict_set k v items = items ++ [(k, v)].
Proof.
  induction items as [|[k' v'] items IH]; [done|]. cbn.
  intros [Hk Hrest]%orb_false_elim. rewrite Hk. by rewrite IH.
Qed.

Lemma fold_dict_set_distinct {V} (items acc : list (string * V)) :
  distinct_keys items →
  (∀ kv, kv ∈ items → has_key kv.1 acc = false) →
  fold_left (λ d kv, dict_set kv.1 kv.2 d) items acc = acc ++ items.
Proof.
  revert acc. induction items as [|[k v] items IH]; intros acc Hd Hacc.
  - cbn. by rewrite app_nil_r.
  - cbn in *. apply andb_True in Hd as [Hk Hd].
    apply negb_True, Is_true_false in Hk.
    rewrite dict_set_fresh by (apply (Hacc (k, v)); by left).
    rewrite IH; [by rewrite <- app_assoc | done |].
    intros [k' v'] Hin. rewrite has_key_app.
    rewrite (Hacc (k', v')) by by right. cbn. rewrite orb_false_r.
    destruct (String.eqb_spec k' k) as [->|]; [|done].
    exfalso. revert Hk. unfold has_key. apply not_false_iff_true.
    apply existsb_exists. exists (k, v'). split.
    + by apply list_elem_of_In.
    + apply String.eqb_refl.
Qed.

Lemma dict_of_items_distinct {V} (items : list (string * V)) :
  distinct_keys items → dict_of_items items = items.
Proof.
  intros Hd. unfold dict_of_items. by rewrite fold_dict_set_distinct.
Qed.

Lemma tail_ok_put_more (xs : list pyval) (tail : string) :
  tail_ok (put_more put xs tail).
Proof. by destruct xs. Qed.

Lemma tail_ok_put_more_members (kvs : list (string * pyval)) (tail : string) :
  tail_ok (put_more_members put kvs tail).
Proof. by destruct kvs. Qed.

Lemma forallb_Forall {A} (p : A → bool) (xs : list A) :
  forallb p xs → Forall (λ x, p x) xs.
Proof.
  induction xs as [|x xs IH]; [done|]. cbn. intros [Hx Hxs]%andb_True.
  constructor; auto.
Qed.

Lemma parse_put (v : pyval) : json_ok v → parses v.
Proof.
  induction v as [| b | lit | s | items IH | items IH] using pyval_ind;
    intros Hok fuel tail Hfuel Htail;
    (destruct fuel as [|fuel]; [cbn in Hfuel; lia|]).
  - done.
  - by destruct b.
  - destruct lit as [|c lit]; [done|]. cbn in Hok.
    apply andb_True in Hok as [Hc Hlit]. apply Is_true_true in Hc.
    destruct (number_start_head c Hc) as (Hq & Hl & Hd & Hn).
    cbn [put]. rewrite append_cons, parse_S, Hq, Hl, Hd, Hc.
    rewrite <- append_cons, take_number_append; [done| |done].
    cbn. rewrite Hn. done.
  - cbn [put]. unfold put_string. rewrite parse_S. cbn.
    by rewrite read_chars_put_chars.
  - destruct items as [|x xs]; [done|]. cbn [put]. rewrite parse_S.
    cbn [json_ok] in Hok. apply forallb_Forall in Hok.
    pose proof Hok as [Hx _]%Forall_cons.
    cbn -[put parse_elems]. rewrite skip_ws_put by done.
    destruct (put_head x (put_more put xs tail) Hx) as (c & rest & Heq & Hc).
    destruct (value_start_not_closing c Hc) as [Hclose _].
    rewrite Heq at 1. rewrite Hclose.
    rewrite parse_elems_put; [done| |done|cbn in *; lia].
    clear -IH Hok. induction IH as [|y ys Hy _ IHys]; [done|].
    apply Forall_cons in Hok as [Hyok Hok]. constructor; auto.
  - destruct items as [|[k x] kvs]; [done|]. cbn [put]. rewrite parse_S.
    cbn [json_ok] in Hok. apply andb_True in Hok as [Hd Hok].
    apply forallb_Forall in Hok.
    cbn -[put parse_members put_string].
    unfold put_string at 1. cbn -[put parse_members put_string].
    change (String dquote (put_chars k (String dquote ?t)))
      with (put_string k t).
    rewrite skip_ws_put_string.
    pose proof (parse_members_put (k, x) kvs fuel tail) as Hm.
    cbn [fst snd] in Hm. rewrite Hm; [| |done|cbn in *; lia].
    + cbn -[dict_of_items]. by rewrite dict_of_items_distinct.
    + clear -IH Hok. induction IH as [|y ys Hy _ IHys]; [done|].
      apply Forall_cons in Hok as [Hyok Hok]. constructor; auto.
Qed.

Lemma length_append (s t : string) :
  String.length (s +:+ t) = (String.length s + String.length t)%nat.
Proof.
  induction s as [|c s IH]; [done|].
  rewrite append_cons. cbn. by rewrite IH.
Qed.

Lemma length_put_char (c : ascii) (tail : string) :
  (String.length tail < String.length (put_char c tail))%nat.
Proof. unfold put_char. repeat case_match; cbn; lia. Qed.

Lemma length_put_chars (s tail : string) :
  (String.length tail ≤ String.length (put_chars s tail))%nat.
Proof.
  induction s as [|c s IH]; cbn [put_chars]; [done|].
  pose proof (length_put_char c (put_chars s tail)). lia.
Qed.

Lemma length_put_string (s tail : string) :
  (2 + String.length tail ≤ String.length (put_string s tail))%nat.
Proof.
  unfold put_string. cbn [String.length].
  pose proof (length_put_chars s (String dquote tail)) as Hle.
  cbn [String.length] in Hle. lia.
Qed.

(** A text is at least as long as the fuel its value needs. *)
Lemma length_put (v : pyval) (tail : string) :
  json_ok v →
  (weight v + String.length tail ≤ String.length (put v tail))%nat.
Proof.
  revert tail.
  induction v as [| b | lit | s | items IH | items IH] using pyval_ind;
    intros tail Hok.
  - cbn [put]. rewrite length_append. cbn. lia.
  - destruct b; cbn [put]; rewrite length_append; cbn; lia.
  - destruct lit as [|c lit]; [done|].
    cbn [put]. rewrite length_append. cbn. lia.
  - cbn [put weight]. pose proof (length_put_string s tail). lia.
  - cbn [json_ok] in Hok. apply forallb_Forall in Hok.
    assert (∀ xs, Forall (λ x, ∀ tail, json_ok x →
                (weight x + String.length tail
                 ≤ String.length (put x tail))%nat) xs →
              Forall (λ x, json_ok x) xs →
              (foldr (λ x n, S (weight x + n)) 0 xs + 1 + String.length tail
               ≤ String.length (put_more put xs tail))%nat) as Hmore.
    { clear. intros xs Hxs Hok.
      induction Hxs as [|x xs Hx _ IHxs]; [cbn; lia|].
      apply Forall_cons in Hok as [Hxok Hok]. cbn [put_more foldr String.length].
      specialize (Hx (put_more put xs tail) Hxok). specialize (IHxs Hok). lia. }
    destruct items as [|x xs]; [cbn; lia|].
    apply Forall_cons in IH as [Hx IH]. apply Forall_cons in Hok as [Hxok Hok].
    cbn [put weight foldr String.length].
    specialize (Hx (put_more put xs tail) Hxok).
    specialize (Hmore xs IH Hok). lia.
  - cbn [json_ok] in Hok. apply andb_True in Hok as [_ Hok].
    apply forallb_Forall in Hok.
    assert (∀ kvs, Forall (λ kv : string * pyval, ∀ tail, json_ok kv.2 →
                (weight kv.2 + String.length tail
                 ≤ String.length (put kv.2 tail))%nat) kvs →
              Forall (λ kv : string * pyval, json_ok kv.2) kvs →
              (foldr (λ kv n, S (weight kv.2 + n)) 0 kvs + 1
               + String.length tail
               ≤ String.length (put_more_members put kvs tail))%nat) as Hmore.
    { clear. intros kvs Hkvs Hok.
      induction Hkvs as [|kv kvs Hkv _ IHkvs]; [cbn; lia|].
      apply Forall_cons in Hok as [Hkvok Hok].
      cbn [put_more_members foldr String.length].
      pose proof (length_put_string kv.1 (String ":" (String " "
        (put kv.2 (put_more_members put kvs tail))))) as Hk.
      cbn [String.length] in Hk.
      specialize (Hkv (put_more_members put kvs tail) Hkvok).
      specialize (IHkvs Hok). lia. }
    destruct items as [|kv kvs]; [cbn; lia|].
    apply Forall_cons in IH as [Hkv IH].
    apply Forall_cons in Hok as [Hkvok Hok].
    cbn [put weight foldr String.length].
    pose proof (length_put_string kv.1 (String ":" (String " "
      (put kv.2 (put_more_members put kvs tail))))) as Hk.
    cbn [String.length] in Hk.
    specialize (Hkv (put_more_members put kvs tail) Hkvok).
    specialize (Hmore kvs IH Hok). lia.
Qed.

Lemma weight_pos (v : pyval) : (1 ≤ weight v)%nat.
Proof. destruct v; cbn; lia. Qed.

Lemma json_loads_json_dumps (v : pyval) :
  json_ok v → json_loads (json_dumps v) = Some v.
Proof.
  intros Hok. unfold json_loads, json_dumps.
  rewrite skip_ws_put by done.
  rewrite (parse_put v Hok); [done| |done].
  pose proof (length_put v "" Hok). lia.
Qed.

Lemma json_dumps_not_empty (v : pyval) :
  json_ok v → json_dumps v ≠ "".
Proof.
  intros Hok Hempty. pose proof (length_put v "" Hok) as Hle.
  pose proof (weight_pos v). unfold json_dumps in Hempty.
  rewrite Hempty in Hle. cbn in Hle. lia.
Qed.

Lemma lib_laws : PyLibLaws (H := lib).
Proof.
  split.
  - apply fromisoformat_reads_isoformat.
  - apply json_loads_json_dumps.
  - apply json_dumps_not_empty.
Qed.

#[export] Existing Instance lib_laws.

End PyFacts.

(** ** The statements on the scenario *)

Module Checks.
Import Py PyFacts Demo.

(** A, B and C are subscribed and B publishes: the handlers of A and C are
    invoked, in that order, and the handler of B is not. *)
Lemma dispatch_invokes_the_other_agents_witness :
  ∃ invoked : list Call,
    (handle_incoming_message (event_for M2) three_subscribers).1 = Ok tt
    ∧ calls (handle_incoming_message (event_for M2) three_subscribers).2
      = calls three_subscribers ++ invoked
    ∧ callee_name <$> invoked = ["A"; "C"].
Proof.
  destruct (dispatch_invokes_the_other_agents
              (event_for M2) M2 three_subscribers)
    as (invoked & Hreturns & Hcalls & _ & _ & _ & Hall).
  - reflexivity.
  - compute_done.
  - exists invoked. split; [exact Hreturns|]. split; [exact Hcalls|].
    destruct (Hall (world (route (message_handlers (self three_subscribers))
                             M2 three_subscribers).2)) as (-> & _).
    + reflexivity.
    + reflexivity.
Defined.

(** The table of [failing_first] has the handler of A, which raises, before
    the handler of B: a message of C reaches A only, although B is another
    agent than the sender. *)
Lemma raising_handler_starves_later_handlers :
  decode_event (event_for M3) = Ok M3
  ∧ (message_handlers (self failing_first)).*1 = ["A"; "B"]
  ∧ str_ne "B" (agent_name M3) = true
  ∧ callee_name
      <$> calls (handle_incoming_message (event_for M3) failing_first).2
    = ["A"].
Proof. repeat split; reflexivity. Qed.

(** Self-exclusion and cross-delivery on the scenario: B publishes, and
    the handlers of A and C run once each, with the message of B; the
    handler of B does not run. *)
Example cross_delivery :
  let st := after (handle_incoming_message (event_for M2)) three_subscribers in
  ((λ c, (callee_name c, argument c)) <$> calls st) = [("A", M2); ("C", M2)]
  ∧ app_state (world st) = ["A"; "C"].
Proof. split; reflexivity. Qed.

(** An event whose payload has no [message_id] is dropped. *)
Lemma malformed_event_is_dropped_witness :
  ∃ e : exn,
    handle_incoming_message (event_of (json_dumps incomplete_payload))
      three_subscribers
    = (Ok tt, dropped e three_subscribers)
    ∧ calls (dropped e three_subscribers) = calls three_subscribers
    ∧ world (dropped e three_subscribers) = world three_subscribers.
Proof.
  apply (malformed_event_is_dropped
           (event_of (json_dumps incomplete_payload)) incomplete_payload).
  - reflexivity.
  - left. exists "message_id". split; [compute_done|reflexivity].
Defined.

(** An event with an unparsable timestamp, and an event with no payload at
    all, are dropped as well. *)
Example mistimed_event_is_dropped :
  handle_incoming_message (event_of (json_dumps mistimed_payload))
    three_subscribers
  = (Ok tt, dropped ValueError three_subscribers)
  ∧ handle_incoming_message ∅ three_subscribers
    = (Ok tt, dropped (KeyError "agent_name") three_subscribers).
Proof. split; reflexivity. Qed.

(** The handler of A raises on the message of C: the failure is logged,
    the handler of B is not invoked, and the call returns. *)
Lemma handler_failure_ends_dispatch_witness :
  handle_incoming_message (event_for M3) failing_first
  = (Ok tt,
     {| self := self failing_first; world := world failing_first;
        logs := logs failing_first
          ++ [Error "Failed to handle incoming message: {e}" boom];
        calls := calls failing_first
          ++ [call_of M3 ("A", failing boom)] |})
  ∧ ∀ later, later ∈ [("B", noting "B")] →
             later.1 ∉ callee_name <$> [call_of M3 ("A", failing boom)].
Proof.
  apply (handler_failure_ends_dispatch (event_for M3) M3 failing_first
           [] ("A", failing boom) [("B", noting "B")]
           (world failing_first) (world failing_first) boom).
  - reflexivity.
  - reflexivity.
  - compute_done.
  - reflexivity.
  - reflexivity.
  - reflexivity.
Defined.

(** The handler of A raises [boom] for the message M3, and
    [handle_incoming_message] returns normally all the same: the exception
    does not reach the caller. *)
Lemma handler_exception_does_not_propagate :
  failing boom M3 (world failing_first) = (Raise boom, world failing_first)
  ∧ (handle_incoming_message (event_for M3) failing_first).1 = Ok tt
  ∧ logs (handle_incoming_message (event_for M3) failing_first).2
    = logs failing_first
      ++ [Error "Failed to handle incoming message: {e}" boom].
Proof. repeat split; reflexivity. Qed.

(** Saving M1 and then M2, M3 leaves M2, M3 under the key, and M2, M3
    are what is read back. *)
Lemma save_overwrites_witness :
  (save_chat_history [M2; M3]
     (save_chat_history [M1] (fresh never)).2).1 = Ok tt
  ∧ persisted
      (world (save_chat_history [M2; M3]
                (save_chat_history [M1] (fresh never)).2).2)
      [M2; M3]
  ∧ state_store
      (world (save_chat_history [M2; M3]
                (save_chat_history [M1] (fresh never)).2).2)
    = <[("chat-state", "chat-history") :=
          json_dumps (PyList (message_data <$> [M2; M3]))]>
        (state_store (world (fresh never)))
  ∧ (get_chat_history 100
       (save_chat_history [M2; M3]
          (save_chat_history [M1] (fresh never)).2).2).1
    = Ok [M2; M3].
Proof.
  destruct (save_overwrites [M1] [M2; M3] (fresh never))
    as (Hreturns & Hkey & Hstore & Hread).
  - intros n _. reflexivity.
  - destruct Hread as (Hwhole & _); [repeat constructor|].
    split; [exact Hreturns|]. split; [exact Hkey|]. split; [exact Hstore|].
    apply Hwhole. change (2 ≤ 100)%Z. lia.
Defined.

(** Overwrite semantics on the scenario: after saving M1 and then M2, M3
    the store holds the two later messages, and M1 is gone. *)
Example overwrite_semantics :
  let st := after (save_chat_history [M1];; save_chat_history [M2; M3])
              (fresh never) in
  (get_chat_history 100 st).1 = Ok [M2; M3].
Proof. reflexivity. Qed.

(** The sidecar accepts the connection and refuses the write. *)
Lemma save_failure_is_swallowed_witness :
  save_chat_history [M1] (fresh (only 1 store_down))
  = (Ok tt,
     after_refusal "Failed to save chat history: {e}" store_down
       (connected dapr_client (fresh (only 1 store_down))))
  ∧ state_store
      (world (save_chat_history [M1] (fresh (only 1 store_down))).2)
    = state_store (world (fresh (only 1 store_down))).
Proof.
  apply (save_failure_is_swallowed [M1] (fresh (only 1 store_down))).
  - reflexivity.
  - reflexivity.
Defined.

(** The sidecar accepts the connection and refuses the write of M1 with
    [store_down]: [save_chat_history] returns normally, and the caller
    learns nothing of the failure. *)
Lemma save_does_not_raise_on_write_failure :
  faults (world (connected dapr_client (fresh (only 1 store_down)))) 1%nat
  = Some store_down
  ∧ (save_chat_history [M1] (fresh (only 1 store_down))).1 = Ok tt
  ∧ state_store
      (world (save_chat_history [M1] (fresh (only 1 store_down))).2)
    = ∅.
Proof. repeat split; reflexivity. Qed.

(** The payload published for M1 decodes to M1. *)
Lemma wire_round_trip_witness :
  event_payload (event_for M1) = Ok (message_data M1)
  ∧ decode_event (event_for M1) = Ok M1.
Proof.
  apply (wire_round_trip M1 (event_for M1)).
  - repeat split.
  - reflexivity.
Defined.

(** B publishes through the sidecar and the sidecar delivers the event: the
    handlers of A and C receive the message that B sent. *)
Example publish_then_dispatch :
  let sent := after (publish_message M2) three_subscribers in
  let delivered := ev_data <$> published (world sent) in
  let st := after (for_each delivered
                     (λ data, handle_incoming_message (event_of data))) sent in
  ((λ c, (callee_name c, argument c)) <$> calls st) = [("A", M2); ("C", M2)].
Proof. reflexivity. Qed.

(** The payload of [publish_message], as the sidecar carries it. *)
Example published_payload :
  ev_data <$> published (world (after (publish_message M1) (fresh never)))
  = [quoted ("{'agent_name': 'A', 'role': 'assistant', "
             +:+ "'content': 'requirements', "
             +:+ "'timestamp': '2024-02-29T09:00:00', "
             +:+ "'message_id': 'id-1'}")].
Proof. reflexivity. Qed.

(** An empty store, and a store whose read the sidecar refuses. *)
Lemma load_degrades_to_empty_witness :
  get_chat_history 5 (fresh never)
  = (Ok [],
     set_world (tick (world (connected dapr_client (fresh never))))
       (connected dapr_client (fresh never)))
  ∧ get_chat_history 5 (fresh (only 1 store_down))
    = (Ok [],
       after_refusal "Failed to get chat history: {e}" store_down
         (connected dapr_client (fresh (only 1 store_down)))).
Proof.
  split.
  - apply (load_degrades_to_empty 5 (fresh never)
             (connected dapr_client (fresh never))); reflexivity.
  - apply (load_degrades_to_empty 5 (fresh (only 1 store_down))
             (connected dapr_client (fresh (only 1 store_down))));
      reflexivity.
Defined.

(** A sidecar that refuses the connection, and one that accepts it and
    refuses the publication. *)
Lemma connect_and_publish_failures_propagate_witness :
  initialize (fresh (only 0 store_down))
  = (Raise store_down,
     after_refusal "Failed to initialize Dapr client: {e}" store_down
       (fresh (only 0 store_down)))
  ∧ publish_message M1 (fresh (only 0 store_down))
    = (Raise store_down,
       after_refusal "Failed to initialize Dapr client: {e}" store_down
         (fresh (only 0 store_down)))
  ∧ publish_message M1 (fresh (only 1 store_down))
    = (Raise store_down,
       after_refusal "Failed to publish message: {e}" store_down
         (connected dapr_client (fresh (only 1 store_down)))).
Proof.
  destruct (connect_and_publish_failures_propagate
              M1 (fresh (only 0 store_down)) store_down) as [Hconnect _].
  destruct (connect_and_publish_failures_propagate
              M1 (fresh (only 1 store_down)) store_down) as [_ Hpublish].
  destruct Hconnect as [Hinit Hpub]; [reflexivity|].
  split; [exact Hinit|]. split; [apply Hpub; reflexivity|].
  apply (Hpublish (connected dapr_client (fresh (only 1 store_down))));
    reflexivity.
Defined.

(** The store holds M1, M2, M3 and the limit is 0. *)
Lemma load_limit_zero_returns_whole_log_witness :
  (get_chat_history 0 saved_three).1 = Ok [M1; M2; M3]
  ∧ ([M1; M2; M3] ≠ [] → (get_chat_history 0 saved_three).1 ≠ Ok []).
Proof.
  apply (load_limit_zero_returns_whole_log [M1; M2; M3] saved_three
           saved_three).
  - repeat constructor.
  - reflexivity.
  - reflexivity.
  - reflexivity.
Defined.

(** C2, at the input where the code departs from it.  The log holds M1,
    M2 and M3; [get_chat_history 2] returns the two most recent messages,
    oldest first, but [get_chat_history 0] returns all three, where the
    most recent zero messages are none, and a negative limit drops that
    many of the oldest messages. *)
Theorem load_limit_zero_is_not_the_most_recent_zero :
  persisted (world saved_three) [M1; M2; M3]
  ∧ (get_chat_history 2 saved_three).1 = Ok [M2; M3]
  ∧ (get_chat_history 0 saved_three).1 = Ok [M1; M2; M3]
  ∧ (get_chat_history (-1) saved_three).1 = Ok [M2; M3].
Proof. repeat split; reflexivity. Qed.

End Checks.

(** ** Further statements on the scenario *)

Module MoreChecks.
Import Py PyFacts Demo.

(** C is not subscribed: its message reaches the handlers of A and B. *)
Lemma unregistered_sender_reaches_every_handler_witness :
  handle_incoming_message (event_for M3) two_subscribers
  = (Ok tt,
     {| self := self two_subscribers; world := noted ["A"; "B"];
        logs := logs two_subscribers;
        calls := calls two_subscribers
          ++ (call_of M3 <$> message_handlers (self two_subscribers)) |}).
Proof.
  apply (unregistered_sender_reaches_every_handler (event_for M3) M3
           two_subscribers).
  - reflexivity.
  - right. repeat constructor; discriminate.
  - reflexivity.
Defined.

(** A connected manager whose store holds no JSON at all. *)
Lemma load_never_raises_once_connected_witness :
  ∃ messages : list ChatMessage,
    (get_chat_history 5 (holding (PyStr "x"))).1 = Ok messages.
Proof.
  apply (load_never_raises_once_connected 5 (holding (PyStr "x"))
           (holding (PyStr "x"))).
  reflexivity.
Defined.

(** The stored list holds M1 and a payload without [message_id]: M1 does
    not come back either. *)
Lemma load_is_all_or_nothing_witness :
  (get_chat_history 5
     (holding (PyList [message_data M1; incomplete_payload]))).1 = Ok []
  ∧ ∃ e,
      logs (get_chat_history 5
              (holding (PyList [message_data M1; incomplete_payload]))).2
      = logs (holding (PyList [message_data M1; incomplete_payload]))
        ++ [Error "Failed to get chat history: {e}" e].
Proof.
  apply (load_is_all_or_nothing 5 [message_data M1; incomplete_payload]
           (holding (PyList [message_data M1; incomplete_payload]))
           (holding (PyList [message_data M1; incomplete_payload]))).
  - reflexivity.
  - reflexivity.
  - reflexivity.
  - reflexivity.
  - apply Exists_cons_tl, Exists_cons_hd. reflexivity.
Defined.

(** The store holds a JSON string, and a JSON object. *)
Lemma load_of_non_list_is_empty_witness :
  (get_chat_history 5 (holding (PyStr "hello"))).1 = Ok []
  ∧ (get_chat_history 5 (holding (PyDict []))).1 = Ok [].
Proof.
  split.
  - apply (load_of_non_list_is_empty 5 (PyStr "hello")
             (holding (PyStr "hello")) (holding (PyStr "hello")));
      [reflexivity|reflexivity|reflexivity|discriminate].
  - apply (load_of_non_list_is_empty 5 (PyDict [])
             (holding (PyDict [])) (holding (PyDict [])));
      [reflexivity|reflexivity|reflexivity|discriminate].
Defined.

(** Two publications of a fresh manager. *)
Lemma connection_is_made_once_witness :
  ticks (world (publish_message M2 (publish_message M1 (fresh never)).2).2)
  = 3%nat
  ∧ ev_data
      <$> published
            (world (publish_message M2 (publish_message M1 (fresh never)).2).2)
    = [json_dumps (message_data M1); json_dumps (message_data M2)].
Proof.
  destruct (connection_is_made_once M1 M2 (fresh never))
    as (Hticks & Hpublished & _).
  - reflexivity.
  - intros n _. reflexivity.
  - split; [exact Hticks|]. rewrite Hpublished. reflexivity.
Defined.

(** Every method but the dispatch, once each. *)
Lemma only_dispatch_invokes_handlers_witness :
  calls (session quiet_session (fresh never)) = []
  ∧ app_state (world (session quiet_session (fresh never))) = [].
Proof.
  apply (only_dispatch_invokes_handlers quiet_session (fresh never)).
  repeat constructor.
Defined.

(** A message of A, sent from a process of its own. *)
Lemma send_agent_message_delivers_witness :
  ∃ st' : St (App := list string),
    send_agent_message (H := lib) "A" "assistant" "requirements" T1 "id-1"
      (fresh never)
    = (Ok "id-1", st')
    ∧ ev_data <$> published (world st') = [json_dumps (message_data M1)]
    ∧ self st' = self (fresh never).
Proof.
  eexists. split.
  - apply (send_agent_message_delivers (H := lib) "A" "assistant"
             "requirements" T1
             "id-1" (fresh never)).
    intros n _. reflexivity.
  - split; reflexivity.
Defined.

(** B publishes in a process of its own; A, B and C are subscribed in
    another one. *)
Lemma published_event_reaches_subscribers_witness :
  published (world (publish_message M2 (fresh never)).2)
  = published (world (fresh never))
    ++ [event_published (self (fresh never)) M2]
  ∧ handle_incoming_message
      (delivery (event_published (self (fresh never)) M2)) three_subscribers
    = (Ok tt,
       {| self := self three_subscribers; world := noted ["A"; "C"];
          logs := logs three_subscribers;
          calls := calls three_subscribers
            ++ (call_of M2
                  <$> eligible (message_handlers (self three_subscribers)) M2)
       |}).
Proof.
  apply (published_event_reaches_subscribers M2 (fresh never)
           three_subscribers (noted ["A"; "C"])).
  - repeat split.
  - intros n _. reflexivity.
  - reflexivity.
Defined.

(** Three messages saved, the last two loaded. *)
Lemma load_after_save_witness :
  (get_chat_history 2 (save_chat_history [M1; M2; M3] (fresh never)).2).1
  = Ok [M2; M3].
Proof.
  destruct (load_after_save 2 [M1; M2; M3] (fresh never)) as (Hlast & _).
  - repeat constructor.
  - intros n _. reflexivity.
  - exact (Hlast eq_refl).
Defined.

(** The stored list begins with a payload that is no message; the limit
    selects the two messages after it. *)
Lemma load_ignores_older_entries_witness :
  (get_chat_history 2
     (holding (PyList [incomplete_payload; message_data M2; message_data M3]))).1
  = Ok [M2; M3].
Proof.
  apply (load_ignores_older_entries 2 [incomplete_payload] [M2; M3]
           (holding (PyList [incomplete_payload; message_data M2;
                             message_data M3]))
           (holding (PyList [incomplete_payload; message_data M2;
                             message_data M3]))).
  - reflexivity.
  - reflexivity.
  - reflexivity.
  - reflexivity.
  - split; [reflexivity|discriminate].
Defined.

(** The sidecar refuses the third call, the [close] of [cleanup]: the
    caller gets the exception, and the event is out. *)
Lemma send_agent_message_failures_witness :
  (send_agent_message (H := lib) "A" "assistant" "requirements" T1 "id-1"
     (fresh (only 2 store_down))).1 = Raise store_down
  ∧ ev_data
      <$> published
            (world (send_agent_message (H := lib) "A" "assistant"
                      "requirements" T1 "id-1"
                      (fresh (only 2 store_down))).2)
    = [json_dumps (message_data M1)].
Proof.
  destruct (send_agent_message_failures (H := lib) "A" "assistant"
              "requirements" T1 "id-1" (fresh (only 2 store_down))
              store_down) as (_ & _ & Hclose).
  destruct Hclose as (Hraise & Hpublished & _);
    [reflexivity|reflexivity|reflexivity|].
  split; [exact Hraise|]. rewrite Hpublished. reflexivity.
Defined.

(** Data that is no text, text that is no JSON, JSON that is a list. *)
Lemma event_without_json_object_is_dropped_witness :
  handle_incoming_message {[ "data" := PyNone ]} three_subscribers
  = (Ok tt, dropped TypeError three_subscribers)
  ∧ handle_incoming_message (event_of "not json") three_subscribers
    = (Ok tt, dropped JSONDecodeError three_subscribers)
  ∧ handle_incoming_message (event_of "[1]") three_subscribers
    = (Ok tt, dropped TypeError three_subscribers).
Proof.
  split; [|split].
  - destruct (event_without_json_object_is_dropped
                {[ "data" := PyNone ]} three_subscribers) as (Hdata & _).
    apply Hdata. discriminate.
  - destruct (event_without_json_object_is_dropped
                (event_of "not json") three_subscribers) as (_ & Htext & _).
    apply (Htext "not json"); reflexivity.
  - destruct (event_without_json_object_is_dropped
                (event_of "[1]") three_subscribers) as (_ & _ & Hjson).
    apply (Hjson "[1]" (PyList [PyNum "1"])); [reflexivity|reflexivity|].
    discriminate.
Defined.

(** A manager that never connected, and a connected one whose [close]
    the sidecar refuses. *)
Lemma cleanup_closes_and_keeps_the_client_witness :
  cleanup (fresh never) = (Ok tt, fresh never)
  ∧ cleanup (after initialize (fresh (only 1 store_down)))
    = (Raise store_down,
       after_call (after initialize (fresh (only 1 store_down))))
  ∧ client (self (cleanup (after initialize (fresh (only 1 store_down)))).2)
    = Some dapr_client.
Proof.
  split; [|split].
  - destruct (cleanup_closes_and_keeps_the_client (fresh never))
      as (Hnone & _).
    apply Hnone. reflexivity.
  - destruct (cleanup_closes_and_keeps_the_client
                (after initialize (fresh (only 1 store_down))))
      as (_ & _ & Hrefused & _).
    apply Hrefused; [by eexists|reflexivity].
  - destruct (cleanup_closes_and_keeps_the_client
                (after initialize (fresh (only 1 store_down))))
      as (_ & _ & _ & Hself).
    rewrite Hself. reflexivity.
Defined.

End MoreChecks.
